(** * Resume scanner (src/util/RsumeScan.js): shallow embedding and properties

    JavaScript strings are sequences of UTF-16 code units; every string
    operation of the source ([startsWith], [split], [trim], [length], regular
    expressions without the [u] flag) works on code units, so a string is
    modelled as [list Z].  Numbers that the source only ever uses as integers
    are [Z]; the two places where a non-integer number matters (the text
    matrix of a PDF text run, the similarity score) use [Q], a double being
    the rational it denotes. *)

From Stdlib Require Import String Ascii DecimalString.
From Stdlib Require Import ZArith List Bool Lia QArith Qround Lqa.
From Stdlib Require Import Permutation.
Import ListNotations.
Local Open Scope Z_scope.

Set Implicit Arguments.

(** ** Strings *)

Definition jsstring := list Z.

Definition jsstring_eq_dec : forall a b : jsstring, {a = b} + {a <> b} :=
  list_eq_dec Z.eq_dec.

Definition jsstring_eqb (a b : jsstring) : bool :=
  if jsstring_eq_dec a b then true else false.

(** Source literals are written as UTF-8 text and turned into code units. *)
Fixpoint utf8_decode (bs : list Z) : list Z :=
  match bs with
  | [] => []
  | b0 :: t0 =>
    if b0 <? 128 then b0 :: utf8_decode t0
    else if b0 <? 224 then
      match t0 with
      | b1 :: t1 => ((b0 - 192) * 64 + (b1 - 128)) :: utf8_decode t1
      | _ => []
      end
    else if b0 <? 240 then
      match t0 with
      | b1 :: b2 :: t2 =>
        ((b0 - 224) * 4096 + (b1 - 128) * 64 + (b2 - 128)) :: utf8_decode t2
      | _ => []
      end
    else
      match t0 with
      | b1 :: b2 :: b3 :: t3 =>
        ((b0 - 240) * 262144 + (b1 - 128) * 4096 + (b2 - 128) * 64 + (b3 - 128))
          :: utf8_decode t3
      | _ => []
      end
  end.

Definition utf16_encode (cp : Z) : list Z :=
  if cp <? 65536 then [cp]
  else [55296 + (cp - 65536) / 1024; 56320 + (cp - 65536) mod 1024].

Definition bytes_of (s : string) : list Z :=
  map (fun a => Z.of_N (N_of_ascii a)) (list_ascii_of_string s).

Definition utf16 (s : string) : jsstring :=
  flat_map utf16_encode (utf8_decode (bytes_of s)).

(** [r.startsWith(icon)] *)
Fixpoint startsWith (r icon : jsstring) {struct icon} : bool :=
  match icon, r with
  | [], _ => true
  | _ :: _, [] => false
  | i :: icon', c :: r' => (c =? i) && startsWith r' icon'
  end.

(** [n.toString()] for a non-negative integer. *)
Definition of_N (n : N) : jsstring :=
  bytes_of (NilEmpty.string_of_uint (N.to_uint n)).

Definition of_Z (z : Z) : jsstring :=
  if z <? 0 then 45 :: of_N (Z.to_N (- z)) else of_N (Z.to_N z).

(** ** Scoring (calculateScore) *)

(** The [deductions] object; [Object.keys] enumerates string keys in insertion
    order. *)
Definition deductions : list (jsstring * Z) :=
  [ (utf16 "🔴", 15); (utf16 "⚠️", 10); (utf16 "🟠", 7); (utf16 "🟡", 5) ].

Definition deduct (r : jsstring) (score : Z) : Z :=
  fold_left
    (fun score (kv : jsstring * Z) =>
       if startsWith r (fst kv) then score - snd kv else score)
    deductions score.

Definition calculateScore (results : list jsstring) : Z :=
  let score := fold_left (fun score r => deduct r score) results 100 in
  Z.max 0 score.

(** The tag vocabulary of the specification, with its weights. *)
Inductive Tag := Red | Warning | Orange | Yellow | Green | Check | Cross.

Definition tag_icon (g : Tag) : jsstring :=
  match g with
  | Red => utf16 "🔴"
  | Warning => utf16 "⚠️"
  | Orange => utf16 "🟠"
  | Yellow => utf16 "🟡"
  | Green => utf16 "🟢"
  | Check => utf16 "✅"
  | Cross => utf16 "❌"
  end.

Definition weight (g : Tag) : Z :=
  match g with
  | Red => 15
  | Warning => 10
  | Orange => 7
  | Yellow => 5
  | Green | Check | Cross => 0
  end.

Definition all_tags : list Tag := [Red; Warning; Orange; Yellow; Green; Check; Cross].

(** The leading tag of an item: the tag whose icon the item starts with. *)
Definition leading_tag (r : jsstring) : option Tag :=
  find (fun g => startsWith r (tag_icon g)) all_tags.

Definition item_weight (r : jsstring) : Z :=
  match leading_tag r with
  | Some g => weight g
  | None => 0
  end.

Definition sum_weights (results : list jsstring) : Z :=
  fold_right (fun r acc => item_weight r + acc) 0 results.

(** Icons of the deduction table that an item starts with. *)
Definition matching_icons (r : jsstring) : list (jsstring * Z) :=
  filter (fun kv : jsstring * Z => startsWith r (fst kv)) deductions.

(** ** String operations used by the checks *)

(** [WhiteSpace] and [LineTerminator] code units: what [trim] strips and what
    the class [\s] matches. *)
Definition is_line_terminator (c : Z) : bool :=
  (c =? 10) || (c =? 13) || (c =? 8232) || (c =? 8233).

Definition is_space (c : Z) : bool :=
  (c =? 9) || (c =? 11) || (c =? 12) || (c =? 32) || (c =? 160) ||
  (c =? 5760) || ((8192 <=? c) && (c <=? 8202)) || (c =? 8239) ||
  (c =? 8287) || (c =? 12288) || (c =? 65279) || is_line_terminator c.

Fixpoint drop_while (p : Z -> bool) (s : jsstring) : jsstring :=
  match s with
  | [] => []
  | c :: s' => if p c then drop_while p s' else s
  end.

Definition trim (s : jsstring) : jsstring :=
  rev (drop_while is_space (rev (drop_while is_space s))).

(** [s.split(sep)] for a separator of one code unit, and [s.split(/[...]/)]
    for a class of single code units: the pieces between the separators, empty
    pieces included. *)
Fixpoint split_on_go (p : Z -> bool) (cur : jsstring) (s : jsstring)
  : list jsstring :=
  match s with
  | [] => [rev cur]
  | c :: s' =>
    if p c then rev cur :: split_on_go p [] s'
    else split_on_go p (c :: cur) s'
  end.

Definition split_on (p : Z -> bool) (s : jsstring) : list jsstring :=
  split_on_go p [] s.

(** [s.split(sep)] for a non-empty separator string: scan left to right, cut
    at each occurrence and resume after it. *)
Fixpoint split_str_go (sep : jsstring) (skip : nat) (cur : jsstring)
  (s : jsstring) : list jsstring :=
  match s with
  | [] => [rev cur]
  | c :: s' =>
    match skip with
    | S k => split_str_go sep k cur s'
    | O =>
      if startsWith s sep
      then rev cur :: split_str_go sep (length sep - 1) [] s'
      else split_str_go sep 0 (c :: cur) s'
    end
  end.

Definition split_str (sep : jsstring) (s : jsstring) : list jsstring :=
  split_str_go sep 0 [] s.

Fixpoint join (sep : jsstring) (l : list jsstring) : jsstring :=
  match l with
  | [] => []
  | [x] => x
  | x :: l' => x ++ sep ++ join sep l'
  end.

(** ** Regular expressions

    A backtracking matcher in continuation-passing style with the priorities
    of the ECMAScript one: alternatives left to right, greedy repetition.  A
    position in the input is the pair of the code units before it (nearest
    first) and the code units after it. *)

Inductive regex :=
| Eps
| Cls (p : Z -> bool)
| Seq (a b : regex)
| Alt (a b : regex)
| Star (a : regex)
| BolM
| WordB
| Ahead (a : regex).

Definition pos := (list Z * list Z)%type.

Definition is_word_char (c : Z) : bool :=
  ((97 <=? c) && (c <=? 122)) || ((65 <=? c) && (c <=? 90)) ||
  ((48 <=? c) && (c <=? 57)) || (c =? 95).

Definition head_is (p : Z -> bool) (s : list Z) : bool :=
  match s with
  | c :: _ => p c
  | [] => false
  end.

Fixpoint rmatch (r : regex) (k : pos -> option pos) (st : pos) {struct r}
  : option pos :=
  match r with
  | Eps => k st
  | Cls p =>
    match snd st with
    | c :: rest => if p c then k (c :: fst st, rest) else None
    | [] => None
    end
  | Seq a b => rmatch a (rmatch b k) st
  | Alt a b =>
    match rmatch a k st with
    | Some e => Some e
    | None => rmatch b k st
    end
  | Star a =>
    (fix iter (fuel : nat) (st : pos) {struct fuel} : option pos :=
       match fuel with
       | O => k st
       | S fuel' =>
         match
           rmatch a
             (fun st' =>
                if (length (snd st') <? length (snd st))%nat
                then iter fuel' st' else None) st
         with
         | Some e => Some e
         | None => k st
         end
       end) (length (snd st)) st
  | BolM =>
    match fst st with
    | [] => k st
    | c :: _ => if is_line_terminator c then k st else None
    end
  | WordB =>
    if xorb (head_is is_word_char (fst st)) (head_is is_word_char (snd st))
    then k st else None
  | Ahead a =>
    match rmatch a Some st with
    | Some _ => k st
    | None => None
    end
  end.

Definition Chr (c : Z) : regex := Cls (Z.eqb c).
Definition Plus (a : regex) : regex := Seq a (Star a).
Definition Opt (a : regex) : regex := Alt a Eps.

Fixpoint Rep (n : nat) (a : regex) : regex :=
  match n with
  | O => Eps
  | S n' => Seq a (Rep n' a)
  end.

(** A literal matched under the [i] flag.  Without the [u] flag a code unit
    of the input is canonicalised by upper-casing, except that a non-ASCII
    unit never canonicalises to an ASCII one: an ASCII letter of the pattern
    matches exactly its two ASCII cases. *)
Definition ascii_lower (c : Z) : Z :=
  if (65 <=? c) && (c <=? 90) then c + 32 else c.

Definition ChrI (c : Z) : regex := Cls (fun x => ascii_lower x =? ascii_lower c).

Fixpoint LitI (s : jsstring) : regex :=
  match s with
  | [] => Eps
  | c :: s' => Seq (ChrI c) (LitI s')
  end.

(** Leftmost match at or after a position: where it starts and where it
    ends. *)
Fixpoint search (r : regex) (before after : list Z) : option (pos * pos) :=
  match rmatch r Some (before, after) with
  | Some e => Some ((before, after), e)
  | None =>
    match after with
    | [] => None
    | c :: after' => search r (c :: before) after'
    end
  end.

(** [re.test(s)], and [s.match(re) !== null] for a pattern without [g]. *)
Definition test (r : regex) (s : jsstring) : bool :=
  match search r [] s with
  | Some _ => true
  | None => false
  end.

(** [s.match(re) || []] for a pattern with the [g] flag: every match from left
    to right, an empty match advancing by one code unit. *)
Fixpoint match_all_go (fuel : nat) (r : regex) (before after : list Z)
  : list jsstring :=
  match fuel with
  | O => []
  | S fuel' =>
    match search r before after with
    | None => []
    | Some ((b0, a0), (b1, a1)) =>
      let m := firstn (length a0 - length a1) a0 in
      match m, a1 with
      | [], [] => [m]
      | [], c :: a1' => m :: match_all_go fuel' r (c :: b1) a1'
      | _ :: _, _ => m :: match_all_go fuel' r b1 a1
      end
    end
  end.

Definition match_all (r : regex) (s : jsstring) : list jsstring :=
  match_all_go (S (length s)) r [] s.

Definition is_digit (c : Z) : bool := (48 <=? c) && (c <=? 57).
Definition is_upper (c : Z) : bool := (65 <=? c) && (c <=? 90).
Definition is_lower (c : Z) : bool := (97 <=? c) && (c <=? 122).
Definition is_alpha (c : Z) : bool := is_upper c || is_lower c.

(** [/^[-•▪*]/gm] *)
Definition is_bullet (c : Z) : bool :=
  (c =? 45) || (c =? 8226) || (c =? 9642) || (c =? 42).
Definition re_bullet : regex := Seq BolM (Cls is_bullet).

(** [/\./g] *)
Definition re_dot : regex := Chr 46.

(** [/project/i] *)
Definition re_project : regex := LitI (utf16 "project").

(** [/\b[A-Z0-9._%+-]+@[A-Z0-9.-]+\.[A-Z]{2,}\b/i] *)
Definition is_email_local (c : Z) : bool :=
  is_alpha c || is_digit c || (c =? 46) || (c =? 95) || (c =? 37) ||
  (c =? 43) || (c =? 45).
Definition is_email_domain (c : Z) : bool :=
  is_alpha c || is_digit c || (c =? 46) || (c =? 45).
Definition re_email : regex :=
  Seq WordB
    (Seq (Plus (Cls is_email_local))
       (Seq (Chr 64)
          (Seq (Plus (Cls is_email_domain))
             (Seq (Chr 46)
                (Seq (Seq (Rep 2 (Cls is_alpha)) (Star (Cls is_alpha)))
                   WordB))))).

(** [/(\+?\d{1,3}[-.\s]?)?\d{10}/] *)
Definition is_phone_sep (c : Z) : bool :=
  (c =? 45) || (c =? 46) || is_space c.
Definition re_phone : regex :=
  Seq
    (Opt
       (Seq (Opt (Chr 43))
          (Seq (Seq (Cls is_digit) (Opt (Seq (Cls is_digit) (Opt (Cls is_digit)))))
             (Opt (Cls is_phone_sep)))))
    (Rep 10 (Cls is_digit)).

(** [/^[A-Z][A-Za-z\s]+(?=\n|:)/gm] *)
Definition re_heading : regex :=
  Seq BolM
    (Seq (Cls is_upper)
       (Seq (Plus (Cls (fun c => is_alpha c || is_space c)))
          (Ahead (Alt (Chr 10) (Chr 58))))).

(** [/experience|achievement|project|work/i] *)
Definition re_keyword : regex :=
  Alt (LitI (utf16 "experience"))
    (Alt (LitI (utf16 "achievement"))
       (Alt (LitI (utf16 "project")) (LitI (utf16 "work")))).

(** [/\d+%|\d+\+/] *)
Definition re_quantity : regex :=
  Alt (Seq (Plus (Cls is_digit)) (Chr 37)) (Seq (Plus (Cls is_digit)) (Chr 43)).

(** [/^[a-z]/] *)
Definition starts_lowercase (s : jsstring) : bool := head_is is_lower s.

(** [/[.!?]/], the separator of the sentence split. *)
Definition is_sentence_end (c : Z) : bool :=
  (c =? 46) || (c =? 33) || (c =? 63).

(** ** Rule-based analyzers on the extracted text *)

Definition quote : jsstring := [34].

Definition msg_long_paragraphs (i : nat) : jsstring :=
  utf16 "🟠 Section " ++ of_N (N.of_nat (i + 1)) ++
  utf16 " has long paragraphs — use concise bullet points.".

Definition checkBulletPoints (text : jsstring) : list jsstring :=
  let sections := split_str [10; 10] text in
  flat_map
    (fun isec : nat * jsstring =>
       let bulletCount := length (match_all re_bullet (snd isec)) in
       let sentenceCount := length (match_all re_dot (snd isec)) in
       if (5 <? sentenceCount)%nat && (bulletCount =? 0)%nat
       then [msg_long_paragraphs (fst isec)] else [])
    (combine (seq 0 (length sections)) sections).

Definition msg_projects : jsstring :=
  utf16 "🟡 Add a 'Projects' section to showcase your hands-on experience.".

Definition checkProjects (text : jsstring) : list jsstring :=
  if negb (test re_project text) then [msg_projects] else [].

Definition msg_contact : jsstring :=
  utf16 "🔴 Missing proper contact information (email/phone).".

Definition checkContactFormatting (text : jsstring) : list jsstring :=
  let emailMatch := test re_email text in
  let phoneMatch := test re_phone text in
  let issues := [] in
  let issues :=
    if negb emailMatch || negb phoneMatch then issues ++ [msg_contact]
    else issues in
  issues.

Definition msg_heading (h tc : jsstring) : jsstring :=
  utf16 "🟡 Heading " ++ quote ++ h ++ quote ++ utf16 " should be " ++
  quote ++ tc ++ quote ++ utf16 " for consistency.".

Definition msg_quantify : jsstring :=
  utf16 "🟢 Quantify achievements — add measurable results like " ++ quote ++
  utf16 "Improved efficiency by 20%" ++ quote ++ utf16 ".".

(** The condition under which a line is asked for a measurable result. *)
Definition lacks_quantity (line : jsstring) : bool :=
  test re_keyword line && negb (test re_quantity line).

(** What one line contributes. *)
Definition achievement_items (line : jsstring) : list jsstring :=
  if lacks_quantity line then [msg_quantify] else [].

Definition checkAchievements (text : jsstring) : list jsstring :=
  let lines := split_on (Z.eqb 10) text in
  flat_map achievement_items lines.

Definition msg_image_based : jsstring :=
  utf16 "🔴 File may be image-based (no readable text). Use text-based PDF or DOCX.".

Definition checkFileCompatibility (text : jsstring) : list jsstring :=
  if (length text <? 200)%nat then [msg_image_based] else [].

(** [x.toFixed(2)] for a number below 10^21 in absolute value: the integer [n]
    with [n / 100] nearest to [x], the larger one on a tie, printed with two
    digits after the point. *)
Definition hundredths (x : Q) : Z := Qfloor (x * 100 + (1 # 2))%Q.

Definition fixed2_digits (n : Z) : jsstring :=
  of_Z (n / 100) ++ [46; 48 + (n mod 100) / 10; 48 + (n mod 100) mod 10].

Definition toFixed2 (x : Q) : jsstring :=
  if Qle_bool 0 x then fixed2_digits (hundredths x)
  else 45 :: fixed2_digits (hundredths (- x)%Q).

(** Arithmetic on doubles.  A finite double is the rational it denotes, and
    the result of an operation is the exact result rounded to the nearest
    double, ties to the even significand: 53 bits of significand, exponent
    not below -1074.  (No overflow: the numbers printed by [toFixed] are
    below 10^21.) *)
Definition round_half_even (num den : Z) : Z :=
  let q := num / den in
  let r := num mod den in
  if 2 * r <? den then q
  else if den <? 2 * r then q + 1
  else if Z.even q then q else q + 1.

(** The exponent [e] of the unit in the last place of [n / d], for positive
    [n] and [d]: 2^52 <= (n / d) / 2^e < 2^53, or -1074 for a subnormal. *)
Definition double_exponent (n d : Z) : Z :=
  let a := Z.log2 n in
  let b := Z.log2 d in
  let e :=
    if d * 2 ^ Z.max 0 (a - b) <=? n * 2 ^ Z.max 0 (b - a)
    then a - b - 52 else a - b - 53 in
  Z.max e (-1074).

Definition round_double_pos (n d : Z) : Q :=
  let e := double_exponent n d in
  let m := round_half_even (n * 2 ^ Z.max 0 (- e)) (d * 2 ^ Z.max 0 e) in
  Qmake (m * 2 ^ Z.max 0 e) (Z.to_pos (2 ^ Z.max 0 (- e))).

Definition round_double (x : Q) : Q :=
  match Qnum x with
  | Z0 => 0%Q
  | Zpos n => round_double_pos (Zpos n) (Zpos (Qden x))
  | Zneg n => (- round_double_pos (Zpos n) (Zpos (Qden x)))%Q
  end.

(** [a * b] on doubles. *)
Definition double_mul (a b : Q) : Q := round_double (a * b)%Q.

Definition msg_keyword_prefix : jsstring := utf16 "🟢 Keyword match score: ".

(** [sentences] of the grammar heuristic and the two filters on them. *)
Definition sentences (text : jsstring) : list jsstring :=
  filter (fun s => (0 <? length (trim s))%nat) (split_on is_sentence_end text).

Definition longSentences (text : jsstring) : list jsstring :=
  filter (fun s => (25 <? length (split_on (Z.eqb 32) s))%nat) (sentences text).

Definition lowercaseStart (text : jsstring) : list jsstring :=
  filter (fun s => starts_lowercase (trim s)) (sentences text).

Definition msg_long_sentences (n : nat) : jsstring :=
  utf16 "🟠 Found " ++ of_N (N.of_nat n) ++
  utf16 " long sentences — consider splitting for clarity.".

Definition msg_lowercase : jsstring :=
  utf16 "🟠 Some sentences start with lowercase letters — check capitalization.".

Definition msg_grammar_ok : jsstring :=
  utf16 "✅ No major grammar or structure issues found.".

Definition checkGrammarHeuristics (text : jsstring) : list jsstring :=
  let issues := [] in
  let issues :=
    if (5 <? length (longSentences text))%nat
    then issues ++ [msg_long_sentences (length (longSentences text))]
    else issues in
  let issues :=
    if (0 <? length (lowercaseStart text))%nat
    then issues ++ [msg_lowercase] else issues in
  let issues :=
    if (length issues =? 0)%nat then issues ++ [msg_grammar_ok] else issues in
  issues.

(** ** Exceptions *)

Inductive exn :=
| IOError (msg : jsstring)
| PDFError (msg : jsstring)
| TypeError (msg : jsstring).

Inductive result (A : Type) :=
| Ok (a : A)
| Throw (e : exn).

Arguments Ok {A} a.
Arguments Throw {A} e.

Definition bind {A B : Type} (m : result A) (f : A -> result B) : result B :=
  match m with
  | Ok a => f a
  | Throw e => Throw e
  end.

Notation "x <- m ;; k" := (bind m (fun x => k))
  (at level 61, m at next level, right associativity).

(** ** Numbers of the layout analysis

    [Math.round] yields an integer, [NaN] on [undefined]; [Math.max()] and
    [Math.min()] of no argument are the two infinities. *)
Inductive number :=
| NaN
| NegInf
| Int (z : Z)
| PosInf.

Definition number_eq_dec : forall a b : number, {a = b} + {a <> b}.
Proof. decide equality. apply Z.eq_dec. Defined.

Definition Math_round (x : option Q) : number :=
  match x with
  | Some q => Int (Qfloor (q + (1 # 2))%Q)
  | None => NaN
  end.

Definition max2 (a b : number) : number :=
  match a, b with
  | NaN, _ | _, NaN => NaN
  | PosInf, _ | _, PosInf => PosInf
  | NegInf, x | x, NegInf => x
  | Int x, Int y => Int (Z.max x y)
  end.

Definition min2 (a b : number) : number :=
  match a, b with
  | NaN, _ | _, NaN => NaN
  | NegInf, _ | _, NegInf => NegInf
  | PosInf, x | x, PosInf => x
  | Int x, Int y => Int (Z.min x y)
  end.

Definition Math_max (l : list number) : number := fold_left max2 l NegInf.
Definition Math_min (l : list number) : number := fold_left min2 l PosInf.

Definition sub (a b : number) : number :=
  match a, b with
  | NaN, _ | _, NaN => NaN
  | Int x, Int y => Int (x - y)
  | PosInf, PosInf | NegInf, NegInf => NaN
  | PosInf, _ | _, NegInf => PosInf
  | NegInf, _ | _, PosInf => NegInf
  end.

(** [a > z] *)
Definition gt (a : number) (z : Z) : bool :=
  match a with
  | Int x => z <? x
  | PosInf => true
  | NaN | NegInf => false
  end.

(** ** The PDF page model of pdfjs *)

Record TextItem := {
  str : jsstring;
  fontName : option jsstring;
  transform : option (list Q)
}.

Record TextContent := { items : list TextItem }.

(** A page; [getTextContent] is the outcome the promise returned by
    [page.getTextContent()] settles with. *)
Record PDFPage := { getTextContent : result TextContent }.

Record PDFDocument := {
  numPages : nat;
  getPage : nat -> result PDFPage
}.

(** The values the formatting check reads properties of. *)
Inductive value :=
| VPromise (settles : result TextContent)
| VTextContent (tc : TextContent).

Definition call_getTextContent (page : PDFPage) : value :=
  VPromise (getTextContent page).

Definition await (v : value) : result value :=
  match v with
  | VPromise (Ok tc) => Ok (VTextContent tc)
  | VPromise (Throw e) => Throw e
  | VTextContent tc => Ok (VTextContent tc)
  end.

(** [v.items]: a promise has no such property, the access gives
    [undefined]. *)
Definition get_items (v : value) : option (list TextItem) :=
  match v with
  | VTextContent tc => Some (items tc)
  | VPromise _ => None
  end.

(** Calling a method ([forEach], [map]) on [v.items]. *)
Definition items_receiver (v : value) : result (list TextItem) :=
  match get_items v with
  | Some its => Ok its
  | None => Throw (TypeError (utf16 "Cannot read properties of undefined"))
  end.

(** [new Set()] and [add]: distinct members in insertion order. *)
Fixpoint set_add {A : Type} (eq_dec : forall a b : A, {a = b} + {a <> b})
  (x : A) (s : list A) : list A :=
  match s with
  | [] => [x]
  | y :: s' => if eq_dec x y then s else y :: set_add eq_dec x s'
  end.

Record Layout := {
  fonts : list jsstring;
  fontSizes : list number;
  leftPositions : list number
}.

Definition empty_layout : Layout :=
  {| fonts := []; fontSizes := []; leftPositions := [] |}.

Definition scan_item (acc : Layout) (item : TextItem) : Layout :=
  let fonts' :=
    match fontName item with
    | Some (c :: f) => set_add jsstring_eq_dec (c :: f) (fonts acc)
    | _ => fonts acc
    end in
  match transform item with
  | Some tr =>
    let fontSize := Math_round (nth_error tr 0) in
    {| fonts := fonts';
       fontSizes := set_add number_eq_dec fontSize (fontSizes acc);
       leftPositions := leftPositions acc ++ [Math_round (nth_error tr 4)] |}
  | None =>
    {| fonts := fonts';
       fontSizes := fontSizes acc;
       leftPositions := leftPositions acc |}
  end.

Fixpoint scan_pages (pdf : PDFDocument) (pages : list nat) (acc : Layout)
  : result Layout :=
  match pages with
  | [] => Ok acc
  | i :: pages' =>
    page <- getPage pdf i ;;
    textContent <- await (call_getTextContent page) ;;
    its <- items_receiver textContent ;;
    scan_pages pdf pages' (fold_left scan_item its acc)
  end.

Definition msg_fonts : jsstring :=
  utf16 "⚠️ Multiple fonts detected — use one consistent font (e.g., Calibri, Arial).".
Definition msg_font_sizes : jsstring :=
  utf16 "⚠️ Too many font sizes — use 10–12 pt for text, 14–16 pt for headings.".
Definition msg_alignment : jsstring :=
  utf16 "⚠️ Inconsistent text alignment — keep left margins uniform.".
Definition msg_bullet_styles : jsstring :=
  utf16 "⚠️ Different bullet styles used — stick to one format.".
Definition msg_format_failed : jsstring :=
  utf16 "❌ Could not analyze formatting (maybe an image-based PDF).".
Definition msg_format_ok : jsstring :=
  utf16 "✅ Formatting appears consistent across sections.".

Definition leftVar (leftPositions : list number) : number :=
  sub (Math_max leftPositions) (Math_min leftPositions).

(** The three flags computed from the collected layout, in order. *)
Definition layout_flags (acc : Layout) : list jsstring :=
  let issues := [] in
  let issues :=
    if (2 <? length (fonts acc))%nat then issues ++ [msg_fonts] else issues in
  let issues :=
    if (4 <? length (fontSizes acc))%nat then issues ++ [msg_font_sizes]
    else issues in
  let issues :=
    if gt (leftVar (leftPositions acc)) 30 then issues ++ [msg_alignment]
    else issues in
  issues.

(** The bullet scan of page 1; the text content is read off the value of
    [page1.getTextContent()] itself, which is not awaited. *)
Definition bullet_flags (pdf : PDFDocument) : result (list jsstring) :=
  page1 <- getPage pdf 1%nat ;;
  its <- items_receiver (call_getTextContent page1) ;;
  let text := join [10] (map str its) in
  let bullets := match_all re_bullet text in
  if (0 <? length bullets)%nat then
    let bulletTypes := fold_left (fun s b => set_add jsstring_eq_dec b s) bullets [] in
    if (1 <? length bulletTypes)%nat then Ok [msg_bullet_styles] else Ok []
  else Ok [].

(** ** The review, over its environment

    The file system, the two PDF libraries and the two text libraries are the
    environment of the module: what they return for each argument is a
    parameter of the development. *)

Record PdfData := { text : option jsstring }.

(** What [reviewResume] resolves with. *)
Inductive returned :=
| Undefined
| ReviewResult (score : Z) (results : list jsstring).

(** A default parameter value [= ""] applies when the argument is absent. *)
Definition default_empty (arg : option jsstring) : jsstring :=
  match arg with
  | Some s => s
  | None => []
  end.

(** [console.log(a, b, ...)] writes its arguments separated by a space. *)
Definition console_log (args : list jsstring) (log : list jsstring)
  : list jsstring :=
  log ++ [join [32] args].

Definition rule : jsstring := utf16 "=========================".

(** ** Definitions that follow the wording of the specification *)

(** A text contains the case-insensitive substring [w]. *)
Definition contains_ci (w text : jsstring) : Prop :=
  exists before m after,
    text = before ++ m ++ after /\ map ascii_lower m = map ascii_lower w.

(** A line contains a percentage: a digit immediately followed by [%]. *)
Definition contains_percentage (line : jsstring) : Prop :=
  exists before d after,
    line = before ++ d :: 37 :: after /\ is_digit d = true.

(** A line contains a count: a digit immediately followed by [+]. *)
Definition contains_count (line : jsstring) : Prop :=
  exists before d after,
    line = before ++ d :: 43 :: after /\ is_digit d = true.

(** A text contains an email address in the sense of the pattern: a run of
    local-part characters, [@], a run of domain characters, a dot and at
    least two letters, with a word boundary in front and no word character
    behind. *)
Definition contains_email (text : jsstring) : Prop :=
  exists before l local d domain t1 t2 tld after,
    text =
      before ++ (l :: local) ++ 64 :: (d :: domain) ++ 46 :: (t1 :: t2 :: tld)
        ++ after /\
    forallb is_email_local (l :: local) = true /\
    forallb is_email_domain (d :: domain) = true /\
    forallb is_alpha (t1 :: t2 :: tld) = true /\
    xorb (head_is is_word_char (rev before)) (is_word_char l) = true /\
    head_is is_word_char after = false.

(** A text contains ten digits in a row. *)
Definition contains_ten_digits (text : jsstring) : Prop :=
  exists before ds after,
    text = before ++ ds ++ after /\ length ds = 10%nat /\
    forallb is_digit ds = true.

(** [st'] is [st] moved forward over the code units [m]. *)
Definition advanced (st st' : pos) : Prop :=
  exists m, snd st = m ++ snd st' /\ fst st' = rev m ++ fst st.

(** Whitespace-delimited words of a sentence: the maximal runs of code units
    that are not whitespace. *)
Fixpoint count_words_go (in_word : bool) (s : jsstring) : nat :=
  match s with
  | [] => 0
  | c :: s' =>
    if is_space c then count_words_go false s'
    else if in_word then count_words_go true s'
    else S (count_words_go true s')
  end.

Definition count_words (s : jsstring) : nat := count_words_go false s.

(** Number of space characters (U+0020) of a sentence. *)
Definition count_spaces (s : jsstring) : nat :=
  length (filter (Z.eqb 32) s).


(** Sentences with at least 25 space characters. *)
Definition spaced_sentences (text : jsstring) : list jsstring :=
  filter (fun s => (25 <=? count_spaces s)%nat) (sentences text).


(** Six sentences of 26 words each, the words separated by line breaks. *)
Definition stacked_sentence : jsstring :=
  utf16 "Led" ++ concat (repeat (10 :: utf16 "teams") 25) ++ [46].

Definition stacked_text : jsstring := concat (repeat stacked_sentence 6).

(** Six sentences of 30 words each, the words separated by single spaces. *)
Definition spaced_sentence (first : jsstring) : jsstring :=
  first ++ concat (repeat (32 :: utf16 "more") 29) ++ [46].

Definition six_long (first : jsstring) : jsstring :=
  join [32] (repeat (spaced_sentence first) 6).


(** ** Plain descriptions of what the patterns of the checks look for *)

(** Number of full stops of a section. *)
Definition count_dots (s : jsstring) : nat := length (filter (Z.eqb 46) s).

(** Some line of the section starts with a bullet glyph; a line starts at the
    beginning of the section and after each line terminator. *)
Fixpoint bullet_line_go (at_start : bool) (s : jsstring) : bool :=
  match s with
  | [] => false
  | c :: s' =>
    (at_start && is_bullet c) || bullet_line_go (is_line_terminator c) s'
  end.

Definition has_bullet_line (s : jsstring) : bool := bullet_line_go true s.

(** The position after the code units [before] (nearest first) starts a
    line. *)
Definition line_start (before : list Z) : bool :=
  match before with
  | [] => true
  | c :: _ => is_line_terminator c
  end.

Definition bullet_at_line_start (s : jsstring) : Prop :=
  exists a c b,
    s = a ++ c :: b /\ is_bullet c = true /\ line_start (rev a) = true.

(** [x] occurs in [s]. *)
Definition substring (x s : jsstring) : Prop :=
  exists a b, s = a ++ x ++ b.

(** Number of line feeds and of sentence terminators of a text. *)
Definition count_newlines (s : jsstring) : nat := length (filter (Z.eqb 10) s).
Definition count_sentence_ends (s : jsstring) : nat :=
  length (filter is_sentence_end s).

(** The text names none of the four keywords of the achievement check. *)
Definition no_achievement_keyword (text : jsstring) : Prop :=
  ~ contains_ci (utf16 "experience") text /\
  ~ contains_ci (utf16 "achievement") text /\
  ~ contains_ci (utf16 "project") text /\
  ~ contains_ci (utf16 "work") text.

(** A heading-like run: a capital A-Z, then at least one letter or
    whitespace, found at the start of a line and directly followed by a line
    feed or a colon. *)
Definition is_heading_char (c : Z) : bool := is_alpha c || is_space c.

Definition heading_at (text h : jsstring) : Prop :=
  exists a b u x m,
    text = a ++ h ++ b /\ line_start (rev a) = true /\
    h = u :: x :: m /\ is_upper u = true /\
    forallb is_heading_char (x :: m) = true /\
    head_is (fun c => (c =? 10) || (c =? 58)) b = true.

(** What one text run adds to the collected layout: its font name when it is
    a non-empty string, its rounded size and left offset when it has a
    transform. *)
Definition run_font (item : TextItem) : list jsstring :=
  match fontName item with
  | Some (c :: f) => [c :: f]
  | _ => []
  end.

Definition run_size (item : TextItem) : list number :=
  match transform item with
  | Some tr => [Math_round (nth_error tr 0)]
  | None => []
  end.

Definition run_left (item : TextItem) : list number :=
  match transform item with
  | Some tr => [Math_round (nth_error tr 4)]
  | None => []
  end.

(** An item carries one of the seven tags. *)
Definition tagged (r : jsstring) : Prop := leading_tag r <> None.

(** One console line per feedback item. *)
Definition bullet_line (r : jsstring) : jsstring := utf16 "• " ++ r.

(** 1 for [true], 0 for [false]. *)
Definition flag (b : bool) : Z := if b then 1 else 0.

(** ** Sample environments *)

Definition sample_item (font : jsstring) (size left : Z) : TextItem :=
  {| str := utf16 "Hello";
     fontName := Some font;
     transform := Some [inject_Z size; 0%Q; 0%Q; inject_Z size; inject_Z left; 700%Q] |}.

(** A document of one page with the given text runs. *)
Definition single_page_doc (its : list TextItem) : PDFDocument :=
  {| numPages := 1;
     getPage := fun i =>
       if (i =? 1)%nat then Ok {| getTextContent := Ok {| items := its |} |}
       else Throw (PDFError (utf16 "Invalid page request")) |}.

(** One font, one size, one left margin, no bullet. *)
Definition clean_doc : PDFDocument :=
  single_page_doc [sample_item (utf16 "g_d0_f1") 12 72; sample_item (utf16 "g_d0_f1") 12 72].

(** Three fonts. *)
Definition three_font_doc : PDFDocument :=
  single_page_doc
    [sample_item (utf16 "g_d0_f1") 12 72; sample_item (utf16 "g_d0_f2") 12 72;
     sample_item (utf16 "g_d0_f3") 12 72].

(** Text runs without a transform: nothing is collected for the margins. *)
Definition no_transform_doc : PDFDocument :=
  single_page_doc [{| str := utf16 "Hello"; fontName := Some (utf16 "g_d0_f1"); transform := None |}].

(** Two pages, of which the second cannot be fetched. *)
Definition broken_page_doc : PDFDocument :=
  {| numPages := 2;
     getPage := fun i =>
       if (i =? 1)%nat
       then Ok {| getTextContent :=
                    Ok {| items := [sample_item (utf16 "g_d0_f1") 12 72] |} |}
       else Throw (PDFError (utf16 "Invalid page request")) |}.

(** The layout collected from [clean_doc] and from [no_transform_doc]. *)
Definition clean_layout : Layout :=
  {| fonts := [utf16 "g_d0_f1"];
     fontSizes := [Int 12];
     leftPositions := [Int 72; Int 72] |}.

Definition no_transform_layout : Layout :=
  {| fonts := [utf16 "g_d0_f1"]; fontSizes := []; leftPositions := [] |}.

Definition fs_ok (filePath : jsstring) : result (list Z) := Ok (utf16 "%PDF-1.4").

Definition fs_missing (filePath : jsstring) : result (list Z) :=
  Throw (IOError (utf16 "ENOENT: no such file or directory")).

Definition pdf_with_text (t : option jsstring) (buffer : list Z) : result PdfData :=
  Ok {| text := t |}.

Definition pdf_corrupt (buffer : list Z) : result PdfData :=
  Throw (PDFError (utf16 "Invalid PDF structure")).

Definition open_doc (doc : PDFDocument) (data : list Z) : result PDFDocument :=
  Ok doc.

Definition open_fails (data : list Z) : result PDFDocument :=
  Throw (PDFError (utf16 "Invalid PDF structure")).

(** A similarity library that scores every pair one third. *)
Definition third_similar (a b : jsstring) : Q := (1 # 3)%Q.

Definition id_string (s : jsstring) : jsstring := s.

Ltac split_eqb :=
  repeat match goal with
         | |- context [ (?a =? ?b) ] => destruct (Z.eqb_spec a b); subst
         end.

Ltac icons :=
  change (utf16 "🔴") with [55357; 56628] in *;
  change (utf16 "⚠️") with [9888; 65039] in *;
  change (utf16 "🟠") with [55357; 57312] in *;
  change (utf16 "🟡") with [55357; 57313] in *;
  change (utf16 "🟢") with [55357; 57314] in *;
  change (utf16 "✅") with [9989] in *;
  change (utf16 "❌") with [10060] in *.

Ltac one_or_none :=
  match goal with
  | |- Forall _ (if ?b then _ else _) => destruct b
  end; repeat constructor.

(** ** Server start-up (src/cvscan.js, lines 33-64)

    The environment is the file system, [process.env] and
    [https.createServer], which throws on a key or certificate it cannot
    use.  [start] is the outcome of the start-up: the server on which
    [listen] is called, or the exception that ends the process; the lines
    are what the callback given to [listen] writes when it is called; the
    warnings of [console.warn] are kept apart. *)

Record SslOptions := {
  key : option (list Z);
  cert : option (list Z);
  ca : option (list Z)
}.

Inductive Server :=
| Https (options : SslOptions) (port : Z)
| Http (port : Z).

Definition PORT : Z := 7005.

Definition warn_unreadable (path : jsstring) : jsstring :=
  utf16 "Could not read SSL file at " ++ path.

Definition https_lines : list jsstring :=
  [ 10 :: utf16 "REZOON DIGITAL ATS LIVE (HTTPS) → https://lunarsenterprises.com:"
      ++ of_Z PORT;
    utf16 "Upload CV → POST /scan/resume (form-data, key: cv)" ++ [10] ].

Definition http_lines : list jsstring :=
  [ 10 :: utf16 "REZOON DIGITAL ATS LIVE (HTTP) → http://localhost:" ++ of_Z PORT;
    utf16 "SSL keys not found or invalid, falling back to HTTP.";
    utf16 "Upload CV → POST /scan/resume (form-data, key: cv)" ++ [10] ].

Section Server.

Variable existsSync : jsstring -> bool.
Variable readFileSync : jsstring -> result (list Z).
Variable env : jsstring -> option jsstring.
Variable createServer : SslOptions -> result unit.

(** [safeRead]: the buffer, or [null]; the [catch] block warns. *)
Definition safeRead (path : jsstring) (warnings : list jsstring)
  : option (list Z) * list jsstring :=
  if existsSync path then
    match readFileSync path with
    | Ok buffer => (Some buffer, warnings)
    | Throw _ => (None, warnings ++ [warn_unreadable path])
    end
  else (None, warnings).

(** [process.env.NAME ? safeRead(process.env.NAME) : null] *)
Definition ssl_file (name : jsstring) (warnings : list jsstring)
  : option (list Z) * list jsstring :=
  match env name with
  | Some (c :: path) => safeRead (c :: path) warnings
  | _ => (None, warnings)
  end.

Definition sslOptions (warnings : list jsstring)
  : SslOptions * list jsstring :=
  let (k, warnings) := ssl_file (utf16 "SSL_PRIVATE_KEY") warnings in
  let (c, warnings) := ssl_file (utf16 "SSL_CERTIFICATE") warnings in
  let (b, warnings) := ssl_file (utf16 "SSL_CA_BUNDLE") warnings in
  ({| key := k; cert := c; ca := b |}, warnings).

(** Lines 53-63.  A buffer is truthy, [null] is not.
    [https.createServer] is not inside a [try]: its exception is the
    outcome, and nothing is logged. *)
Definition start : result Server * list jsstring * list jsstring :=
  let (options, warnings) := sslOptions [] in
  match key options, cert options with
  | Some _, Some _ =>
    match createServer options with
    | Throw e => (Throw e, [], warnings)
    | Ok _ => (Ok (Https options PORT), https_lines, warnings)
    end
  | _, _ => (Ok (Http PORT), http_lines, warnings)
  end.


End Server.

(** Sample start-up environments. *)
Definition env_ssl (name : jsstring) : option jsstring :=
  if jsstring_eqb name (utf16 "SSL_PRIVATE_KEY") then Some (utf16 "/etc/ssl/key.pem")
  else if jsstring_eqb name (utf16 "SSL_CERTIFICATE") then Some (utf16 "/etc/ssl/cert.pem")
  else None.

Definition env_empty (name : jsstring) : option jsstring := None.

Definition all_exist (path : jsstring) : bool := true.

Definition fs_pem (path : jsstring) : result (list Z) := Ok (utf16 "-----BEGIN").

Definition accepts_all (options : SslOptions) : result unit := Ok tt.

Definition rejects_all (options : SslOptions) : result unit :=
  Throw (IOError (utf16 "error:0480006C:PEM routines::no start line")).

Section Review.

Variable readFileSync : jsstring -> result (list Z).
Variable pdf : list Z -> result PdfData.
Variable getDocument : list Z -> result PDFDocument.
Variable compareTwoStrings : jsstring -> jsstring -> Q.
Variable toLowerCase : jsstring -> jsstring.
Variable titleCase : jsstring -> jsstring.

Definition parsePDF (filePath : jsstring) : result jsstring :=
  buffer <- readFileSync filePath ;;
  data <- pdf buffer ;;
  Ok (default_empty (text data)).

Definition checkHeadings (text : jsstring) : list jsstring :=
  let headings := match_all re_heading text in
  flat_map
    (fun h =>
       if negb (jsstring_eqb h (titleCase h)) then [msg_heading h (titleCase h)]
       else [])
    headings.

Definition checkKeywordMatch (text : jsstring) (jobDesc : option jsstring)
  : list jsstring :=
  let jobDesc := default_empty jobDesc in
  match jobDesc with
  | [] => []
  | _ :: _ =>
    let score := compareTwoStrings (toLowerCase text) (toLowerCase jobDesc) in
    [msg_keyword_prefix ++ toFixed2 (double_mul score 100) ++ utf16 "%"]
  end.

(** Lines 101-120 of the formatting check: open the document and collect the
    layout of every page.  No issue is pushed in this part. *)
Definition extract_layout (filePath : jsstring)
  : result (PDFDocument * Layout) :=
  data <- readFileSync filePath ;;
  doc <- getDocument data ;;
  acc <- scan_pages doc (seq 1 (numPages doc)) empty_layout ;;
  Ok (doc, acc).

(** The [try] block, lines 101-139: its outcome and the [issues] array as it
    leaves it.  What was pushed before a throw stays in the array. *)
Definition try_block (filePath : jsstring) (issues : list jsstring)
  : result unit * list jsstring :=
  match extract_layout filePath with
  | Throw e => (Throw e, issues)
  | Ok (doc, acc) =>
    let issues := issues ++ layout_flags acc in
    match bullet_flags doc with
    | Throw e => (Throw e, issues)
    | Ok more => (Ok tt, issues ++ more)
    end
  end.

Definition checkFormattingConsistency (filePath : jsstring) : list jsstring :=
  let issues := [] in
  let (outcome, issues) := try_block filePath issues in
  let issues :=
    match outcome with
    | Ok _ => issues
    | Throw _ => issues ++ [msg_format_failed]
    end in
  if (length issues =? 0)%nat then issues ++ [msg_format_ok] else issues.

(** Lines 173-182: the checks on the text, pushed in this order. *)
Definition text_checks (text : jsstring) (jobDesc : jsstring) : list jsstring :=
  let results := [] in
  let results := results ++ checkBulletPoints text in
  let results := results ++ checkProjects text in
  let results := results ++ checkContactFormatting text in
  let results := results ++ checkHeadings text in
  let results := results ++ checkAchievements text in
  let results := results ++ checkFileCompatibility text in
  let results := results ++ checkKeywordMatch text (Some jobDesc) in
  let results := results ++ checkGrammarHeuristics text in
  results.

(** [reviewResume]: the outcome of the returned promise and the console
    output, given the console output so far. *)
Definition reviewResume (filePath : jsstring) (jobDesc : option jsstring)
  (log : list jsstring) : result returned * list jsstring :=
  let jobDesc := default_empty jobDesc in
  let log := console_log [utf16 "📄 Analyzing resume:"; filePath] log in
  match parsePDF filePath with
  | Throw e => (Throw e, log)
  | Ok text =>
    match text with
    | [] => (Ok Undefined, console_log [utf16 "❌ Could not read text from file."] log)
    | _ :: _ =>
      let results := text_checks text jobDesc in
      let formatResults := checkFormattingConsistency filePath in
      let results := results ++ formatResults in
      let score := calculateScore results in
      let log := console_log [10 :: utf16 "📋 Resume Review Summary"] log in
      let log := console_log [rule] log in
      let log := fold_left (fun log r => console_log [utf16 "•"; r] log) results log in
      let log := console_log [rule] log in
      let log :=
        console_log [utf16 "📊 Overall Resume Score: " ++ of_Z score ++ utf16 "/100"] log in
      let log := console_log [rule ++ [10]] log in
      (Ok (ReviewResult score results), log)
    end
  end.

(** An operation of the PDF layer fails on page [i]. *)
Definition page_fails (doc : PDFDocument) (i : nat) : Prop :=
  (exists e, getPage doc i = Throw e) \/
  (exists page e, getPage doc i = Ok page /\ getTextContent page = Throw e).

(** Layout extraction fails: the file cannot be read, the document cannot be
    opened, or one of its pages or their text content cannot be fetched (the
    pages 1 to [numPages] of the collection, page 1 of the bullet scan). *)
Definition layout_extraction_fails (filePath : jsstring) : Prop :=
  (exists e, readFileSync filePath = Throw e) \/
  (exists data e, readFileSync filePath = Ok data /\ getDocument data = Throw e) \/
  (exists data doc,
      readFileSync filePath = Ok data /\ getDocument data = Ok doc /\
      ((exists i, In i (seq 1 (numPages doc)) /\ page_fails doc i) \/
       page_fails doc 1%nat)).

(** * Properties of the review *)

(** ** Formatting consistency *)

(** The bullet scan never completes: it reads [items] off a promise. *)
Lemma bullet_flags_throws (doc : PDFDocument) :
  exists e, bullet_flags doc = Throw e.
Proof.
  unfold bullet_flags. destruct (getPage doc 1) as [page1|e]; cbn; eauto.
Qed.

Lemma checkFormattingConsistency_cases (filePath : jsstring) :
  checkFormattingConsistency filePath =
  match extract_layout filePath with
  | Ok (doc, acc) => layout_flags acc ++ [msg_format_failed]
  | Throw _ => [msg_format_failed]
  end.
Proof.
  unfold checkFormattingConsistency, try_block.
  destruct (extract_layout filePath) as [[doc acc]|e]; [|reflexivity].
  destruct (bullet_flags_throws doc) as [e ->]. cbn [app].
  destruct (layout_flags acc); reflexivity.
Qed.

(** Every run of the [try] block ends in an exception. *)
Lemma try_block_throws (filePath : jsstring) (issues : list jsstring) :
  exists e, fst (try_block filePath issues) = Throw e.
Proof.
  unfold try_block.
  destruct (extract_layout filePath) as [[doc acc]|e]; [|cbn; eauto].
  destruct (bullet_flags_throws doc) as [e ->]. cbn. eauto.
Qed.

Lemma scan_pages_fails (doc : PDFDocument) (pages : list nat) (acc : Layout)
  (i : nat) :
  In i pages -> page_fails doc i -> exists e, scan_pages doc pages acc = Throw e.
Proof.
  revert acc. induction pages as [|j pages IH]; intros acc Hin Hfail.
  - destruct Hin.
  - cbn [scan_pages]. destruct (getPage doc j) as [page|e] eqn:P; cbn; eauto.
    unfold call_getTextContent.
    destruct (getTextContent page) as [tc|e] eqn:T; cbn; eauto.
    destruct Hin as [->|Hin]; [|now apply IH].
    destruct Hfail as [[e He]|(page' & e & Hp & He)]; congruence.
Qed.

Lemma layout_flags_empty : layout_flags empty_layout = [].
Proof. reflexivity. Qed.

(** C2. On every input on which layout extraction fails (the file cannot be
    read, the document cannot be opened, or a page or its text content cannot
    be fetched), the formatting check returns exactly one item, the cross
    item "Could not analyze formatting", instead of raising, and no warning
    item with it. *)
Theorem checkFormattingConsistency_failure (filePath : jsstring) :
  layout_extraction_fails filePath ->
  checkFormattingConsistency filePath = [msg_format_failed] /\
  startsWith msg_format_failed (tag_icon Cross) = true /\
  startsWith msg_format_failed (tag_icon Warning) = false.
Proof.
  intros H. split; [|split; reflexivity].
  rewrite checkFormattingConsistency_cases. unfold extract_layout.
  destruct H as [[e R]|[(data & e & R & D)|(data & doc & R & D & H)]].
  - now rewrite R.
  - rewrite R. cbn. now rewrite D.
  - rewrite R. cbn. rewrite D. cbn.
    assert (P : (exists i, In i (seq 1 (numPages doc)) /\ page_fails doc i) \/
                numPages doc = 0%nat).
    { destruct H as [H|H]; [now left|].
      destruct (numPages doc) as [|n]; [now right|].
      left. exists 1%nat. split; [now left|exact H]. }
    destruct P as [(i & Hin & Hfail)|Z].
    + destruct (@scan_pages_fails doc _ empty_layout _ Hin Hfail) as [e ->]. reflexivity.
    + rewrite Z. reflexivity.
Qed.

(** Whatever the document, the check ends on the cross item and the success
    item is never produced. *)
Lemma checkFormattingConsistency_ends_failed (filePath : jsstring) :
  exists flags,
    checkFormattingConsistency filePath = flags ++ [msg_format_failed] /\
    ~ In msg_format_ok (checkFormattingConsistency filePath).
Proof.
  rewrite checkFormattingConsistency_cases.
  destruct (extract_layout filePath) as [[doc acc]|e].
  - exists (layout_flags acc). split; [reflexivity|].
    unfold layout_flags.
    destruct (2 <? length (fonts acc))%nat, (4 <? length (fontSizes acc))%nat,
      (gt (leftVar (leftPositions acc)) 30); cbn;
      intros H; repeat (destruct H as [H|H]; [vm_compute in H; discriminate|]);
      exact H.
  - exists []. split; [reflexivity|].
    intros [H|[]]. vm_compute in H. discriminate.
Qed.

(** C6. When no left offset was collected, the spread is computed without an
    exception (it is minus infinity, which is not above 30) and the alignment
    flag is not emitted. *)
Theorem empty_leftPositions_no_alignment_flag (filePath : jsstring)
  (doc : PDFDocument) (acc : Layout) :
  extract_layout filePath = Ok (doc, acc) ->
  leftPositions acc = [] ->
  leftVar (leftPositions acc) = NegInf /\
  gt (leftVar (leftPositions acc)) 30 = false /\
  ~ In msg_alignment (layout_flags acc) /\
  ~ In msg_alignment (checkFormattingConsistency filePath).
Proof.
  intros E L. rewrite checkFormattingConsistency_cases, E.
  assert (F : ~ In msg_alignment (layout_flags acc)).
  { unfold layout_flags. rewrite L.
    destruct (2 <? length (fonts acc))%nat, (4 <? length (fontSizes acc))%nat;
      cbn; intros H;
      repeat (destruct H as [H|H]; [vm_compute in H; discriminate|]);
      exact H. }
  rewrite L. repeat split; auto.
  rewrite in_app_iff. intros [H|[H|[]]]; [auto|].
  vm_compute in H. discriminate.
Qed.

(** ** Keyword match *)

Lemma round_half_even_nonneg (num den : Z) :
  0 <= num -> 0 < den -> 0 <= round_half_even num den.
Proof.
  intros N D. unfold round_half_even. cbv zeta.
  pose proof (Z.div_pos num den N D).
  destruct (2 * (num mod den) <? den); [lia|].
  destruct (den <? 2 * (num mod den)); [lia|].
  destruct (Z.even (num / den)); lia.
Qed.

Lemma round_half_even_le (num den k : Z) :
  0 < den -> num <= k * den -> round_half_even num den <= k.
Proof.
  intros D H. unfold round_half_even. cbv zeta.
  pose proof (Z.div_mod num den ltac:(lia)) as E.
  pose proof (Z.mod_pos_bound num den D) as B.
  assert (Q : num / den <= k) by (apply Z.div_le_upper_bound; lia).
  destruct (Z.ltb_spec (2 * (num mod den)) den); [lia|].
  assert (num / den < k) by nia.
  destruct (den <? 2 * (num mod den)); [lia|].
  destruct (Z.even (num / den)); lia.
Qed.

Lemma double_exponent_small (n d : Z) :
  0 < n -> 0 < d -> n <= 100 * d -> double_exponent n d <= 0.
Proof.
  intros N D H. unfold double_exponent. cbv zeta.
  pose proof (Z.log2_spec n N) as [A1 A2].
  pose proof (Z.log2_spec d D) as [B1 B2].
  pose proof (Z.log2_nonneg n). pose proof (Z.log2_nonneg d).
  assert (L : Z.log2 n - Z.log2 d <= 7).
  { destruct (Z.le_gt_cases (Z.log2 n - Z.log2 d) 7) as [L|L]; [exact L|].
    exfalso.
    assert (P : 2 ^ (Z.log2 d + 8) <= 2 ^ Z.log2 n)
      by (apply Z.pow_le_mono_r; lia).
    replace (Z.log2 d + 8) with (Z.succ (Z.log2 d) + 7) in P by lia.
    rewrite Z.pow_add_r in P by lia. change (2 ^ 7) with 128 in P. nia. }
  destruct (_ <=? _); lia.
Qed.

(** A double between 0 and 100 stays there: 0 and 100 are doubles. *)
Lemma round_double_range (x : Q) :
  (0 <= x <= 100)%Q -> (0 <= round_double x <= 100)%Q.
Proof.
  intros [H0 H1]. unfold round_double. destruct x as [[|n|n] d];
    cbn [Qnum Qden].
  - split; [apply Qle_refl|discriminate].
  - unfold Qle in H1. cbn [Qnum Qden] in H1.
    unfold round_double_pos. cbv zeta.
    pose proof (@double_exponent_small (Zpos n) (Zpos d) ltac:(lia) ltac:(lia)
                  ltac:(lia)) as E.
    set (e := double_exponent (Zpos n) (Zpos d)) in *.
    rewrite (Z.max_l 0 e) by lia. rewrite (Z.max_r 0 (- e)) by lia.
    change (2 ^ 0) with 1. rewrite !Z.mul_1_r.
    assert (P : 0 < 2 ^ (- e)) by (apply Z.pow_pos_nonneg; lia).
    unfold Qle. cbn [Qnum Qden]. rewrite Z2Pos.id by exact P. split.
    + pose proof (@round_half_even_nonneg (Zpos n * 2 ^ (- e)) (Zpos d)
                    ltac:(nia) ltac:(lia)). lia.
    + pose proof (@round_half_even_le (Zpos n * 2 ^ (- e)) (Zpos d)
                    (100 * 2 ^ (- e)) ltac:(lia) ltac:(nia)). lia.
  - unfold Qle in H0. cbn in H0. lia.
Qed.

Lemma hundredths_percent_range (score : Q) :
  (0 <= score <= 1)%Q -> 0 <= hundredths (double_mul score 100) <= 10000.
Proof.
  intros [H0 H1].
  assert (R : (0 <= score * 100 <= 100)%Q) by (split; lra).
  apply round_double_range in R. fold (double_mul score 100) in R.
  destruct R as [R0 R1]. unfold hundredths. split.
  - change 0 with (Qfloor 0). apply Qfloor_resp_le. lra.
  - change 10000 with (Qfloor (10000 + (1 # 2))%Q). apply Qfloor_resp_le. lra.
Qed.

(** C5. The keyword check returns nothing when the job description is empty
    or absent; for a non-empty one it returns exactly one green item, whose
    percentage is the rendering with two decimals of a number of hundredths
    between 0 ("0.00%") and 10000 ("100.00%"), given that the similarity
    library returns a score between 0 and 1. *)
Theorem checkKeywordMatch_spec (text : jsstring) (jobDesc : option jsstring) :
  (forall a b, (0 <= compareTwoStrings a b <= 1)%Q) ->
  (jobDesc = None \/ jobDesc = Some [] -> checkKeywordMatch text jobDesc = []) /\
  (forall c jd,
      jobDesc = Some (c :: jd) ->
      exists n,
        0 <= n <= 10000 /\
        checkKeywordMatch text jobDesc =
          [msg_keyword_prefix ++ fixed2_digits n ++ utf16 "%"]) /\
  startsWith msg_keyword_prefix (tag_icon Green) = true /\
  fixed2_digits 0 = utf16 "0.00" /\
  fixed2_digits 10000 = utf16 "100.00".
Proof.
  intros Hrange. split; [|split; [|repeat split; reflexivity]].
  - intros [->| ->]; reflexivity.
  - intros c jd ->. cbn [checkKeywordMatch default_empty].
    set (score := compareTwoStrings (toLowerCase text) (toLowerCase (c :: jd))).
    exists (hundredths (double_mul score 100)).
    split; [apply hundredths_percent_range, Hrange|].
    unfold toFixed2.
    assert (P : Qle_bool 0 (double_mul score 100) = true).
    { apply Qle_bool_iff.
      destruct (Hrange (toLowerCase text) (toLowerCase (c :: jd))) as [H0 H1].
      fold score in H0, H1.
      assert (R : (0 <= score * 100 <= 100)%Q) by (split; lra).
      apply round_double_range in R. exact (proj1 R). }
    now rewrite P.
Qed.

(** ** Orchestration *)

Lemma parsePDF_empty (filePath : jsstring) :
  (exists buffer data,
      readFileSync filePath = Ok buffer /\ pdf buffer = Ok data /\
      (text data = None \/ text data = Some [])) ->
  parsePDF filePath = Ok [].
Proof.
  intros (buffer & data & R & P & T). unfold parsePDF. rewrite R. cbn.
  rewrite P. cbn. destruct T as [-> | ->]; reflexivity.
Qed.

Lemma parsePDF_fails (filePath : jsstring) (e : exn) :
  readFileSync filePath = Throw e \/
  (exists buffer, readFileSync filePath = Ok buffer /\ pdf buffer = Throw e) ->
  parsePDF filePath = Throw e.
Proof.
  intros [R|(buffer & R & P)]; unfold parsePDF; rewrite R; cbn;
    [|rewrite P]; reflexivity.
Qed.

(** C4. When the extracted text is empty or absent, [reviewResume] stops
    before any check: it logs the two lines and resolves with [undefined],
    which no review result equals, whatever its score. *)
Theorem reviewResume_empty_text (filePath : jsstring)
  (jobDesc : option jsstring) (log : list jsstring) :
  (exists buffer data,
      readFileSync filePath = Ok buffer /\ pdf buffer = Ok data /\
      (text data = None \/ text data = Some [])) ->
  reviewResume filePath jobDesc log =
    (Ok Undefined,
     log ++ [utf16 "📄 Analyzing resume: " ++ filePath;
             utf16 "❌ Could not read text from file."]) /\
  (forall score results,
      fst (reviewResume filePath jobDesc log) <> Ok (ReviewResult score results)).
Proof.
  intros H. apply parsePDF_empty in H.
  assert (E : reviewResume filePath jobDesc log =
              (Ok Undefined,
               log ++ [utf16 "📄 Analyzing resume: " ++ filePath;
                       utf16 "❌ Could not read text from file."])).
  { unfold reviewResume. rewrite H. unfold console_log. cbn [join].
    rewrite <- app_assoc. reflexivity. }
  split; [exact E|]. intros score results. rewrite E. discriminate.
Qed.

(** C8. When the file cannot be read or its container cannot be parsed, text
    extraction throws and the exception leaves [reviewResume]; a valid PDF
    without a text layer gives the empty string instead, and [reviewResume]
    then resolves, with [undefined]: the two outcomes differ. *)
Theorem reviewResume_read_failure (filePath : jsstring)
  (jobDesc : option jsstring) (log : list jsstring) (e : exn) :
  readFileSync filePath = Throw e \/
  (exists buffer, readFileSync filePath = Ok buffer /\ pdf buffer = Throw e) ->
  parsePDF filePath = Throw e /\
  reviewResume filePath jobDesc log =
    (Throw e, log ++ [utf16 "📄 Analyzing resume: " ++ filePath]) /\
  (forall filePath' jobDesc' log' buffer data,
      readFileSync filePath' = Ok buffer ->
      pdf buffer = Ok data ->
      text data = Some [] ->
      parsePDF filePath' = Ok [] /\
      fst (reviewResume filePath' jobDesc' log') = Ok Undefined /\
      fst (reviewResume filePath' jobDesc' log')
        <> fst (reviewResume filePath jobDesc log)).
Proof.
  intros H. apply parsePDF_fails in H.
  assert (E : reviewResume filePath jobDesc log =
              (Throw e, log ++ [utf16 "📄 Analyzing resume: " ++ filePath])).
  { unfold reviewResume. rewrite H. reflexivity. }
  split; [exact H|]. split; [exact E|].
  intros filePath' jobDesc' log' buffer data R P T.
  assert (N : parsePDF filePath' = Ok []).
  { apply parsePDF_empty. exists buffer, data. auto. }
  split; [exact N|].
  assert (U : fst (reviewResume filePath' jobDesc' log') = Ok Undefined).
  { unfold reviewResume. rewrite N. reflexivity. }
  split; [exact U|]. rewrite U, E. discriminate.
Qed.

End Review.

(** * Properties *)

(** ** Scorer *)

Lemma icon_code_units :
  utf16 "🔴" = [55357; 56628] /\ utf16 "⚠️" = [9888; 65039] /\
  utf16 "🟠" = [55357; 57312] /\ utf16 "🟡" = [55357; 57313] /\
  utf16 "🟢" = [55357; 57314] /\ utf16 "✅" = [9989] /\ utf16 "❌" = [10060].
Proof. repeat split; reflexivity. Qed.

Example score_red_orange_yellow :
  calculateScore [utf16 "🔴 a"; utf16 "🟠 b"; utf16 "🟡 c"] = 73.
Proof. reflexivity. Qed.

Example score_ten_red : calculateScore (repeat (utf16 "🔴 x") 10) = 0.
Proof. reflexivity. Qed.

(** One item lowers the running score by the weight of its leading tag. *)
Lemma deduct_weight (r : jsstring) (score : Z) :
  deduct r score = score - item_weight r.
Proof.
  unfold deduct, item_weight, leading_tag, deductions, all_tags, tag_icon.
  icons.
  destruct r as [|c1 [|c2 r']];
    cbn [fold_left find startsWith fst snd weight andb];
    split_eqb; cbn; try lia; try discriminate.
Qed.

Lemma matching_icons_le_1 (r : jsstring) : (length (matching_icons r) <= 1)%nat.
Proof.
  unfold matching_icons, deductions. icons.
  destruct r as [|c1 [|c2 r']]; cbn [filter startsWith fst andb];
    split_eqb; cbn; try lia; try discriminate.
Qed.

Lemma item_weight_nonneg (r : jsstring) : 0 <= item_weight r.
Proof.
  unfold item_weight. destruct (leading_tag r) as [[]|]; cbn; lia.
Qed.

Lemma sum_weights_nonneg (results : list jsstring) : 0 <= sum_weights results.
Proof.
  induction results as [|r rs IH]; cbn [sum_weights fold_right]; [lia|].
  fold (sum_weights rs). pose proof (item_weight_nonneg r). lia.
Qed.

Lemma fold_deduct (results : list jsstring) (score : Z) :
  fold_left (fun score r => deduct r score) results score
  = score - sum_weights results.
Proof.
  revert score.
  induction results as [|r rs IH]; intros score;
    cbn [fold_left sum_weights fold_right].
  - lia.
  - fold (sum_weights rs). rewrite IH, deduct_weight. lia.
Qed.

Lemma item_weight_of_tag (g : Tag) (rest : jsstring) :
  item_weight (tag_icon g ++ rest) = weight g.
Proof.
  unfold item_weight, leading_tag, all_tags, tag_icon. icons.
  destruct g; reflexivity.
Qed.

(** C1. For every feedback sequence the scorer returns
    max(0, 100 - sum of the weights of the items' leading tags), with weights
    15, 10, 7 and 5 for the red, warning, orange and yellow icons and 0 for
    the green, check and cross ones; an item matches at most one icon of the
    deduction table and lowers the score by exactly its own tag's weight; the
    empty sequence scores 100 and every score lies in [0, 100]. *)
Theorem calculateScore_spec (results : list jsstring) :
  calculateScore results = Z.max 0 (100 - sum_weights results) /\
  (forall g rest, item_weight (tag_icon g ++ rest) = weight g) /\
  (weight Red = 15 /\ weight Warning = 10 /\ weight Orange = 7 /\
   weight Yellow = 5 /\ weight Green = 0 /\ weight Check = 0 /\
   weight Cross = 0) /\
  (forall r score,
      (length (matching_icons r) <= 1)%nat /\
      deduct r score = score - item_weight r) /\
  calculateScore [] = 100 /\
  0 <= calculateScore results <= 100.
Proof.
  assert (E : calculateScore results = Z.max 0 (100 - sum_weights results)).
  { unfold calculateScore. cbv zeta. now rewrite fold_deduct. }
  split; [exact E|].
  split; [exact item_weight_of_tag|].
  split; [repeat split|].
  split; [intros r score; split;
          [apply matching_icons_le_1 | apply deduct_weight]|].
  split; [reflexivity|].
  rewrite E. pose proof (sum_weights_nonneg results). lia.
Qed.

(** ** Regular expressions: what a successful test means *)

Lemma search_found (r : regex) (before after : list Z) :
  (exists x, search r before after = Some x) <->
  (exists a b, after = a ++ b /\
               exists e, rmatch r Some (rev a ++ before, b) = Some e).
Proof.
  revert before. induction after as [|c after IH]; intros before; cbn [search].
  - destruct (rmatch r Some (before, [])) as [e|] eqn:M.
    + split; [|eauto]. intros _. exists [], []. cbn. eauto.
    + split; [intros [x Hx]; discriminate|].
      intros (a & b & Hab & e & He).
      destruct a; [|discriminate]. destruct b; [|discriminate].
      cbn in He. congruence.
  - destruct (rmatch r Some (before, c :: after)) as [e|] eqn:M.
    + split; [|eauto]. intros _. exists [], (c :: after). cbn. eauto.
    + rewrite IH. split.
      * intros (a & b & -> & e & He). exists (c :: a), b. split; [reflexivity|].
        exists e. cbn [rev]. now rewrite <- app_assoc.
      * intros (a & b & Hab & e & He). destruct a as [|c' a].
        -- cbn in Hab, He. subst b. congruence.
        -- cbn in Hab. injection Hab as -> ->. exists a, b.
           split; [reflexivity|]. exists e. cbn [rev] in He.
           now rewrite <- app_assoc in He.
Qed.

Lemma test_true (r : regex) (s : jsstring) :
  test r s = true <->
  (exists a b, s = a ++ b /\ exists e, rmatch r Some (rev a, b) = Some e).
Proof.
  unfold test. pose proof (search_found r [] s) as H.
  setoid_rewrite app_nil_r in H. rewrite <- H.
  destruct (search r [] s); split; eauto; try discriminate.
  intros [x Hx]. discriminate.
Qed.

Lemma rmatch_LitI (w : jsstring) (k : pos -> option pos) (before after : list Z)
  (e : pos) :
  rmatch (LitI w) k (before, after) = Some e <->
  (exists m rest, after = m ++ rest /\
                  map ascii_lower m = map ascii_lower w /\
                  k (rev m ++ before, rest) = Some e).
Proof.
  revert k before after. induction w as [|c w IH]; intros k before after.
  - cbn [LitI rmatch]. split.
    + intros H. exists [], after. auto.
    + intros (m & rest & -> & Hm & Hk). destruct m; [exact Hk|discriminate].
  - cbn [LitI rmatch ChrI fst snd]. destruct after as [|x after].
    + split; [discriminate|].
      intros (m & rest & Hm & Hl & _). destruct m; discriminate.
    + destruct (Z.eqb_spec (ascii_lower x) (ascii_lower c)) as [E|E].
      * rewrite IH. split.
        -- intros (m & rest & -> & Hm & Hk). exists (x :: m), rest.
           cbn [map rev]. rewrite E, Hm, <- app_assoc. auto.
        -- intros (m & rest & Hm & Hl & Hk). destruct m as [|y m]; [discriminate|].
           cbn in Hm. injection Hm as <- ->. cbn [map] in Hl.
           injection Hl as _ Hl. exists m, rest. cbn [rev] in Hk.
           rewrite <- app_assoc in Hk. auto.
      * split; [discriminate|].
        intros (m & rest & Hm & Hl & _). destruct m as [|y m]; [discriminate|].
        cbn in Hm. injection Hm as <- ->. cbn [map] in Hl. congruence.
Qed.

Lemma test_LitI (w text : jsstring) :
  test (LitI w) text = true <-> contains_ci w text.
Proof.
  rewrite test_true. unfold contains_ci. split.
  - intros (a & b & -> & e & He). apply rmatch_LitI in He.
    destruct He as (m & rest & -> & Hm & _). eauto.
  - intros (a & m & rest & -> & Hm). exists a, (m ++ rest).
    split; [reflexivity|]. exists (rev m ++ rev a, rest).
    apply rmatch_LitI. eauto.
Qed.

Lemma test_Alt (a b : regex) (s : jsstring) :
  test (Alt a b) s = test a s || test b s.
Proof.
  apply eq_true_iff_eq. rewrite orb_true_iff, !test_true. split.
  - intros (x & y & -> & e & He). cbn [rmatch] in He.
    destruct (rmatch a Some (rev x, y)) eqn:M; [left|right]; eauto 6.
  - intros [(x & y & -> & e & He)|(x & y & -> & e & He)];
      exists x, y; (split; [reflexivity|]); cbn [rmatch].
    + rewrite He. eauto.
    + destruct (rmatch a Some (rev x, y)); eauto.
Qed.

Lemma advanced_refl (st : pos) : advanced st st.
Proof. exists []. auto. Qed.

Lemma advanced_trans (a b c : pos) : advanced a b -> advanced b c -> advanced a c.
Proof.
  intros (m & Hm & Hf) (n & Hn & Hg). exists (m ++ n). split.
  - rewrite Hm, Hn. now rewrite app_assoc.
  - rewrite Hg, Hf, rev_app_distr. now rewrite app_assoc.
Qed.

(** A match that succeeds has called its continuation at a later position of
    the same input. *)
Lemma rmatch_advances (r : regex) :
  forall (k : pos -> option pos) (st e : pos),
    rmatch r k st = Some e -> exists st', advanced st st' /\ k st' = Some e.
Proof.
  induction r as [|p|a IHa b IHb|a IHa b IHb|a IHa| | |a IHa];
    intros k st e H; cbn [rmatch] in H.
  - exists st. split; [apply advanced_refl|exact H].
  - destruct st as [bef aft]. cbn [fst snd] in H.
    destruct aft as [|c rest]; [discriminate|].
    destruct (p c); [|discriminate].
    exists (c :: bef, rest). split; [|exact H]. exists [c]. auto.
  - apply IHa in H. destruct H as (st1 & A1 & H). apply IHb in H.
    destruct H as (st2 & A2 & H). exists st2.
    split; [eapply advanced_trans; eauto|exact H].
  - destruct (rmatch a k st) eqn:M.
    + injection H as <-. now apply IHa in M.
    + now apply IHb in H.
  - revert H. generalize (length (snd st)) as fuel. intros fuel. revert st.
    induction fuel as [|fuel IHf]; intros st H.
    + exists st. split; [apply advanced_refl|exact H].
    + cbn beta iota in H.
      match type of H with
      | match ?m with _ => _ end = _ => destruct m eqn:M
      end.
      * injection H as <-. apply IHa in M. destruct M as (st1 & A1 & M).
        destruct (length (snd st1) <? length (snd st))%nat; [|discriminate].
        apply IHf in M. destruct M as (st2 & A2 & M). exists st2.
        split; [eapply advanced_trans; eauto|exact M].
      * exists st. split; [apply advanced_refl|exact H].
  - exists st. split; [apply advanced_refl|].
    destruct (fst st) as [|c ?]; [exact H|].
    destruct (is_line_terminator c); [exact H|discriminate].
  - exists st. split; [apply advanced_refl|].
    destruct (xorb _ _); [exact H|discriminate].
  - exists st. split; [apply advanced_refl|].
    destruct (rmatch a Some st); [exact H|discriminate].
Qed.

(** A run of a class: the code units it consumed all belong to the class. *)
Lemma rmatch_Star_Cls (p : Z -> bool) (k : pos -> option pos)
  (before after : list Z) (e : pos) :
  rmatch (Star (Cls p)) k (before, after) = Some e ->
  exists m rest, after = m ++ rest /\ forallb p m = true /\
                 k (rev m ++ before, rest) = Some e.
Proof.
  cbn [rmatch snd]. generalize (length after) as fuel. intros fuel.
  revert before after. induction fuel as [|fuel IH]; intros before after H.
  - exists [], after. auto.
  - cbn [fst snd] in H. destruct after as [|c rest].
    + exists [], []. auto.
    + destruct (p c) eqn:P; [|exists [], (c :: rest); auto].
      cbn [fst snd length] in H.
      assert (L : (length rest <? S (length rest))%nat = true)
        by (apply Nat.ltb_lt; lia).
      rewrite L in H.
      match type of H with
      | match ?m with _ => _ end = _ => destruct m eqn:M
      end.
      * injection H as <-. apply IH in M.
        destruct M as (m & rest' & -> & Hm & Hk). exists (c :: m), rest'.
        cbn [forallb rev]. rewrite P, Hm, <- app_assoc. auto.
      * exists [], (c :: rest). auto.
Qed.

Lemma rmatch_Rep_Cls (n : nat) (p : Z -> bool) (k : pos -> option pos)
  (before after : list Z) (e : pos) :
  rmatch (Rep n (Cls p)) k (before, after) = Some e <->
  (exists ds rest, after = ds ++ rest /\ length ds = n /\
                   forallb p ds = true /\ k (rev ds ++ before, rest) = Some e).
Proof.
  revert before after. induction n as [|n IH]; intros before after.
  - cbn [Rep rmatch]. split.
    + intros H. exists [], after. auto.
    + intros (ds & rest & -> & L & _ & H). destruct ds; [exact H|discriminate].
  - cbn [Rep rmatch fst snd]. destruct after as [|c after].
    + split; [discriminate|].
      intros (ds & rest & Hd & L & _). destruct ds; discriminate.
    + destruct (p c) eqn:P.
      * rewrite IH. split.
        -- intros (ds & rest & -> & L & F & H). exists (c :: ds), rest.
           cbn [length forallb rev]. rewrite P, L, F, <- app_assoc. auto.
        -- intros (ds & rest & Hd & L & F & H).
           destruct ds as [|d ds]; [discriminate|].
           cbn in Hd. injection Hd as <- ->. cbn [forallb] in F.
           apply andb_true_iff in F. destruct F as [_ F].
           cbn [length] in L. injection L as L. cbn [rev] in H.
           rewrite <- app_assoc in H. exists ds, rest. auto.
      * split; [discriminate|].
        intros (ds & rest & Hd & L & F & _).
        destruct ds as [|d ds]; [discriminate|].
        cbn in Hd. injection Hd as <- ->. cbn [forallb] in F.
        rewrite P in F. discriminate.
Qed.

Lemma rmatch_Opt (a : regex) (k : pos -> option pos) (st : pos) :
  rmatch (Opt a) k st =
  match rmatch a k st with
  | Some e => Some e
  | None => k st
  end.
Proof. reflexivity. Qed.

(** The phone pattern is present exactly when the text has ten digits in a
    row: the optional prefix can always be left out. *)
Lemma test_phone (text : jsstring) :
  test re_phone text = true <-> contains_ten_digits text.
Proof.
  rewrite test_true. unfold contains_ten_digits, re_phone. split.
  - intros (a & b & -> & e & H). cbn [rmatch] in H. rewrite rmatch_Opt in H.
    match type of H with
    | match ?m with _ => _ end = _ => destruct m eqn:M
    end.
    + injection H as <-. apply rmatch_advances in M. destruct M as ([bef aft] & (m & Hm & Hf) & M).
      cbn [fst snd] in Hm, Hf. apply rmatch_Rep_Cls in M.
      destruct M as (ds & rest & -> & L & F & _).
      exists (a ++ m), ds, rest. rewrite Hm, <- app_assoc. auto.
    + apply rmatch_Rep_Cls in H. destruct H as (ds & rest & -> & L & F & _).
      exists a, ds, rest. auto.
  - intros (a & ds & b & -> & L & F). exists a, (ds ++ b).
    split; [reflexivity|]. cbn [rmatch]. rewrite rmatch_Opt.
    assert (K : rmatch (Rep 10 (Cls is_digit)) Some (rev a, ds ++ b)
                = Some (rev ds ++ rev a, b)).
    { apply rmatch_Rep_Cls. exists ds, b. auto. }
    match goal with
    | |- exists e, match ?m with _ => _ end = _ => destruct m
    end; eauto.
Qed.

(** A run of a class can stop after any prefix made of the class. *)
Lemma rmatch_Star_Cls_cons (p : Z -> bool) (k : pos -> option pos)
  (before rest : list Z) (c : Z) :
  p c = true ->
  rmatch (Star (Cls p)) k (before, c :: rest) =
  match rmatch (Star (Cls p)) k (c :: before, rest) with
  | Some e => Some e
  | None => k (before, c :: rest)
  end.
Proof.
  intros P. cbn [rmatch fst snd length]. rewrite P.
  assert (L : (length rest <? S (length rest))%nat = true)
    by (apply Nat.ltb_lt; lia).
  now rewrite L.
Qed.

Lemma rmatch_Star_Cls_complete (p : Z -> bool) (k : pos -> option pos)
  (m : list Z) :
  forall before rest,
    forallb p m = true ->
    (exists e, k (rev m ++ before, rest) = Some e) ->
    exists e, rmatch (Star (Cls p)) k (before, m ++ rest) = Some e.
Proof.
  induction m as [|c m IH]; intros before rest F [e K].
  - cbn [rev app] in *. destruct rest as [|x rest].
    + cbn. eauto.
    + destruct (p x) eqn:P.
      * rewrite rmatch_Star_Cls_cons by exact P. rewrite K.
        destruct (rmatch (Star (Cls p)) k (x :: before, rest)); eauto.
      * cbn. rewrite P. eauto.
  - cbn [forallb] in F. apply andb_true_iff in F. destruct F as [P F].
    cbn [app]. rewrite rmatch_Star_Cls_cons by exact P.
    destruct (IH (c :: before) rest F) as [e' ->]; [|eauto].
    exists e. cbn [rev] in K. now rewrite <- app_assoc in K.
Qed.

Lemma head_is_rev_app (p : Z -> bool) (m : list Z) (c : Z) (l : list Z) :
  forallb p m = true -> p c = true -> head_is p (rev m ++ c :: l) = true.
Proof.
  intros F P. destruct (rev m) as [|x m'] eqn:R; [exact P|].
  cbn. assert (I : In x (rev m)) by (rewrite R; now left).
  apply in_rev in I. rewrite forallb_forall in F. now apply F.
Qed.

Lemma is_alpha_word (c : Z) : is_alpha c = true -> is_word_char c = true.
Proof.
  unfold is_alpha, is_upper, is_lower, is_word_char. intros H.
  apply orb_true_iff in H. destruct H as [H|H]; rewrite H;
    now rewrite ?orb_true_r.
Qed.

(** The email pattern is present exactly when the text contains an email
    address in the sense of [contains_email]. *)
Lemma test_email (text : jsstring) :
  test re_email text = true <-> contains_email text.
Proof.
  rewrite test_true. unfold contains_email, re_email, Plus, Chr. split.
  - intros (a & b & -> & e & H). cbn [rmatch fst snd Rep] in H.
    destruct (xorb (head_is is_word_char (rev a)) (head_is is_word_char b))
      eqn:W; [|discriminate].
    destruct b as [|l b]; [discriminate|].
    destruct (is_email_local l) eqn:Pl; [|discriminate].
    apply rmatch_Star_Cls in H. destruct H as (m1 & r1 & -> & F1 & H).
    cbn [rmatch fst snd] in H. destruct r1 as [|x r1]; [discriminate|].
    destruct (Z.eqb_spec 64 x) as [<-|]; [|discriminate].
    destruct r1 as [|d r1]; [discriminate|].
    destruct (is_email_domain d) eqn:Pd; [|discriminate].
    apply rmatch_Star_Cls in H. destruct H as (m2 & r2 & -> & F2 & H).
    cbn [rmatch fst snd] in H. destruct r2 as [|y r2]; [discriminate|].
    destruct (Z.eqb_spec 46 y) as [<-|]; [|discriminate].
    destruct r2 as [|t1 r2]; [discriminate|].
    destruct (is_alpha t1) eqn:P1; [|discriminate].
    destruct r2 as [|t2 r2]; [discriminate|].
    destruct (is_alpha t2) eqn:P2; [|discriminate].
    apply rmatch_Star_Cls in H. destruct H as (m3 & r3 & -> & F3 & H).
    cbn [rmatch fst snd] in H.
    rewrite (head_is_rev_app is_word_char m3 t2) in H.
    + exists a, l, m1, d, m2, t1, t2, m3, r3. cbn [forallb].
      rewrite Pl, Pd, P1, P2, F1, F2, F3. cbn [head_is] in W.
      repeat split; auto.
      destruct (head_is is_word_char r3); [discriminate|reflexivity].
    + rewrite forallb_forall in F3 |- *. intros x Hx.
      now apply is_alpha_word, F3.
    + now apply is_alpha_word.
  - intros (a & l & m1 & d & m2 & t1 & t2 & m3 & r3 & -> & F1 & F2 & F3 & W & E).
    cbn [forallb] in F1, F2, F3.
    apply andb_true_iff in F1. destruct F1 as [Pl F1].
    apply andb_true_iff in F2. destruct F2 as [Pd F2].
    apply andb_true_iff in F3. destruct F3 as [P1 F3].
    apply andb_true_iff in F3. destruct F3 as [P2 F3].
    exists a. eexists. split; [reflexivity|].
    cbn [rmatch fst snd Rep app head_is]. rewrite W, Pl.
    apply rmatch_Star_Cls_complete; [exact F1|].
    cbn [rmatch fst snd]. rewrite Z.eqb_refl, Pd.
    apply rmatch_Star_Cls_complete; [exact F2|].
    cbn [rmatch fst snd]. rewrite Z.eqb_refl, P1, P2.
    apply rmatch_Star_Cls_complete; [exact F3|].
    cbn [rmatch fst snd].
    rewrite (head_is_rev_app is_word_char m3 t2), E; cbn; eauto.
    + rewrite forallb_forall in F3 |- *. intros x Hx.
      now apply is_alpha_word, F3.
    + now apply is_alpha_word.
Qed.

Lemma rmatch_digits_then (c : Z) (before after : list Z) (e : pos) :
  rmatch (Seq (Plus (Cls is_digit)) (Chr c)) Some (before, after) = Some e ->
  exists pre d rest, after = pre ++ d :: c :: rest /\ is_digit d = true.
Proof.
  unfold Plus, Chr. cbn [rmatch fst snd]. destruct after as [|d0 after]; [discriminate|].
  destruct (is_digit d0) eqn:D0; [|discriminate].
  intros H. apply rmatch_Star_Cls in H.
  destruct H as (m & rest & -> & F & H). cbn [rmatch fst snd] in H.
  destruct rest as [|x rest]; [discriminate|].
  destruct (Z.eqb_spec c x) as [->|]; [|discriminate].
  destruct (rev m) as [|d m'] eqn:R.
  - apply (f_equal (@rev Z)) in R. rewrite rev_involutive in R. subst m.
    exists [], d0, rest. auto.
  - apply (f_equal (@rev Z)) in R. rewrite rev_involutive in R. cbn in R.
    subst m. rewrite forallb_app in F. apply andb_true_iff in F.
    destruct F as [_ F]. cbn in F. rewrite andb_true_r in F.
    exists (d0 :: rev m'), d, rest. split; [|exact F].
    cbn. now rewrite <- app_assoc.
Qed.

Lemma rmatch_digit_then (c d : Z) (before after : list Z) :
  is_digit d = true ->
  is_digit c = false ->
  rmatch (Seq (Plus (Cls is_digit)) (Chr c)) Some (before, d :: c :: after)
  = Some (c :: d :: before, after).
Proof.
  intros D C. unfold Plus, Chr. cbn. rewrite D. cbn. rewrite C.
  now rewrite Z.eqb_refl.
Qed.

(** The quantity pattern is present exactly when a digit is immediately
    followed by [%] or by [+]. *)
Lemma test_quantity (line : jsstring) :
  test re_quantity line = true <->
  contains_percentage line \/ contains_count line.
Proof.
  unfold re_quantity. rewrite test_Alt, orb_true_iff, !test_true.
  unfold contains_percentage, contains_count. split.
  - intros [(a & b & -> & e & H)|(a & b & -> & e & H)];
      apply rmatch_digits_then in H; destruct H as (pre & d & rest & -> & D);
      [left|right]; exists (a ++ pre), d, rest; rewrite <- app_assoc; auto.
  - intros [(a & d & b & -> & D)|(a & d & b & -> & D)]; [left|right];
      exists a; eexists; (split; [reflexivity|]); eexists;
      apply rmatch_digit_then; auto.
Qed.

(** A digit immediately followed by [%] is a match of [\d+%]. *)
Lemma test_quantity_percentage (line : jsstring) :
  contains_percentage line -> test re_quantity line = true.
Proof.
  intros (before & d & after & -> & Hd). apply test_true.
  exists before, (d :: 37 :: after). split; [reflexivity|].
  unfold re_quantity, Plus, Chr. cbn. rewrite Hd. cbn. eauto.
Qed.

(** ** Projects and achievements *)

(** A line is asked for a measurable result exactly when it names one of
    the four keywords and has no digit followed by [%] or [+]. *)
Lemma lacks_quantity_iff (line : jsstring) :
  lacks_quantity line = true <->
  (contains_ci (utf16 "experience") line \/
   contains_ci (utf16 "achievement") line \/
   contains_ci (utf16 "project") line \/ contains_ci (utf16 "work") line) /\
  ~ (contains_percentage line \/ contains_count line).
Proof.
  unfold lacks_quantity, re_keyword.
  rewrite andb_true_iff, negb_true_iff, !test_Alt, !orb_true_iff, !test_LitI.
  rewrite <- test_quantity.
  split; intros [K Q]; (split; [exact K|]).
  - now rewrite Q.
  - now destruct (test re_quantity line).
Qed.


(** C9. A text with no case-insensitive substring "project" gets exactly one
    yellow item from the Projects check and a text with such a substring gets
    none; a line that contains a percentage gets no item from the Achievement
    check, as the line "This project improved output by 20%" shows for both
    checks. *)
Theorem checkProjects_checkAchievements_spec :
  (forall text,
      ~ contains_ci (utf16 "project") text ->
      checkProjects text = [msg_projects]) /\
  startsWith msg_projects (tag_icon Yellow) = true /\
  (forall text,
      contains_ci (utf16 "project") text -> checkProjects text = []) /\
  (forall line, contains_percentage line -> achievement_items line = []) /\
  (forall text,
      checkAchievements text =
      flat_map achievement_items (split_on (Z.eqb 10) text)) /\
  contains_ci (utf16 "project") (utf16 "This project improved output by 20%") /\
  contains_percentage (utf16 "This project improved output by 20%") /\
  checkProjects (utf16 "This project improved output by 20%") = [] /\
  checkAchievements (utf16 "This project improved output by 20%") = [].
Proof.
  split; [|split; [reflexivity|split; [|split; [|split; [reflexivity|]]]]].
  - intros text H. unfold checkProjects, re_project.
    destruct (test (LitI (utf16 "project")) text) eqn:T; [|reflexivity].
    apply test_LitI in T. contradiction.
  - intros text H. unfold checkProjects, re_project.
    apply test_LitI in H. now rewrite H.
  - intros line H. unfold achievement_items, lacks_quantity.
    rewrite (test_quantity_percentage H). now rewrite andb_false_r.
  - split; [|split; [|split; vm_compute; reflexivity]].
    + exists (utf16 "This "), (utf16 "project"), (utf16 " improved output by 20%").
      split; vm_compute; reflexivity.
    + exists (utf16 "This project improved output by 2"), 48, [].
      split; vm_compute; reflexivity.
Qed.

(** The two implications of C9 at concrete texts. *)
Lemma checkProjects_checkAchievements_witness :
  checkProjects (utf16 "Built a compiler") = [msg_projects] /\
  checkProjects (utf16 "My PROJECTS") = [] /\
  achievement_items (utf16 "Work: cut cost by 5%") = [].
Proof.
  destruct checkProjects_checkAchievements_spec as (H1 & _ & H2 & H3 & _).
  split; [|split].
  - apply H1. intros H. apply test_LitI in H. vm_compute in H. discriminate.
  - apply H2. exists (utf16 "My "), (utf16 "PROJECT"), (utf16 "S").
    split; vm_compute; reflexivity.
  - apply H3. exists (utf16 "Work: cut cost by "), 53, [].
    split; vm_compute; reflexivity.
Defined.

(** ** Contact information *)

(** C10. The contact check returns at most one item: nothing when the text
    contains both an email address and ten digits in a row, and the single
    combined red item when either is absent, also when both are. *)
Theorem checkContactFormatting_spec (text : jsstring) :
  (length (checkContactFormatting text) <= 1)%nat /\
  (contains_email text /\ contains_ten_digits text ->
   checkContactFormatting text = []) /\
  (~ contains_email text \/ ~ contains_ten_digits text ->
   checkContactFormatting text = [msg_contact]) /\
  startsWith msg_contact (tag_icon Red) = true.
Proof.
  unfold checkContactFormatting.
  rewrite <- test_email, <- test_phone.
  destruct (test re_email text), (test re_phone text); cbn;
    (split; [lia|split; [|split; [|reflexivity]]]); try reflexivity.
  - intros [[]|[]]; reflexivity.
  - intros [_ H]. discriminate.
  - intros [H _]. discriminate.
  - intros [H _]. discriminate.
Qed.

(** C10 at a text with both patterns, with neither, and with the phone
    number only. *)
Lemma checkContactFormatting_witness :
  checkContactFormatting (utf16 "jo.doe@example.com, +91 9876543210") = [] /\
  checkContactFormatting (utf16 "no contact details here") = [msg_contact] /\
  checkContactFormatting (utf16 "call 9876543210") = [msg_contact].
Proof.
  split; [|split].
  - apply (checkContactFormatting_spec _). split.
    + apply test_email. vm_compute. reflexivity.
    + apply test_phone. vm_compute. reflexivity.
  - apply (checkContactFormatting_spec _). left. intros H.
    apply test_email in H. vm_compute in H. discriminate.
  - apply (checkContactFormatting_spec _). left. intros H.
    apply test_email in H. vm_compute in H. discriminate.
Defined.

(** ** Grammar heuristic *)

Lemma split_on_go_length (p : Z -> bool) (s cur : jsstring) :
  length (split_on_go p cur s) = S (length (filter p s)).
Proof.
  revert cur. induction s as [|c s IH]; intros cur; cbn [split_on_go filter].
  - reflexivity.
  - destruct (p c); cbn [length]; now rewrite IH.
Qed.

(** [s.split(" ").length] is one more than the number of spaces of [s]. *)
Lemma split_space_length (s : jsstring) :
  length (split_on (Z.eqb 32) s) = S (count_spaces s).
Proof. apply split_on_go_length. Qed.

Lemma filter_nonempty_existsb {A : Type} (f : A -> bool) (l : list A) :
  (0 <? length (filter f l))%nat = existsb f l.
Proof.
  induction l as [|x l IH]; cbn; [reflexivity|].
  destruct (f x); cbn; [reflexivity|exact IH].
Qed.

Lemma longSentences_spaced (text : jsstring) :
  longSentences text = spaced_sentences text.
Proof.
  unfold longSentences, spaced_sentences. apply filter_ext. intros s.
  rewrite split_space_length. reflexivity.
Qed.

(** C7, as stated, fails: six sentences of 26 whitespace-delimited words each
    are not flagged when the words are separated by line breaks; six
    sentences of 30 words each that start in lower case get two orange items;
    a sentence that starts with a lowercase letter outside a-z is not
    flagged. *)
Lemma grammar_words_counterexample :
  ~ (forall text,
        (exists n, In (msg_long_sentences n) (checkGrammarHeuristics text)) <->
        (5 < length (filter (fun s => (25 <? count_words s)%nat)
                       (sentences text)))%nat) /\
  checkGrammarHeuristics (six_long (utf16 "we")) =
    [msg_long_sentences 6; msg_lowercase] /\
  checkGrammarHeuristics (utf16 "écrit en Rocq. Done.") = [msg_grammar_ok].
Proof.
  split; [|split; vm_compute; reflexivity].
  intros H. specialize (H stacked_text). destruct H as [_ H].
  destruct H as [n Hn]; [vm_compute; lia|].
  assert (E : checkGrammarHeuristics stacked_text = [msg_grammar_ok])
    by (vm_compute; reflexivity).
  rewrite E in Hn. destruct Hn as [Hn|[]].
  assert (L : startsWith (msg_long_sentences n) (tag_icon Orange) = true)
    by reflexivity.
  rewrite <- Hn in L. vm_compute in L. discriminate.
Qed.

(** C7, amended. The grammar heuristic emits the orange long-sentences item
    iff more than 5 sentences contain at least 25 space characters (pieces of
    [split(" ")] above 25), emits the orange capitalization item iff some
    sentence, trimmed, starts with one of a-z, and emits the single check item
    iff neither was emitted; six sentences of 30 single-spaced words that
    start with a capital yield exactly the long-sentences item, two short
    capitalized sentences exactly the check item. *)
Theorem checkGrammarHeuristics_spec (text : jsstring) :
  let long := (5 <? length (spaced_sentences text))%nat in
  let lower := existsb (fun s => starts_lowercase (trim s)) (sentences text) in
  checkGrammarHeuristics text =
    (if long then [msg_long_sentences (length (spaced_sentences text))] else [])
    ++ (if lower then [msg_lowercase] else [])
    ++ (if long || lower then [] else [msg_grammar_ok]) /\
  (forall n, startsWith (msg_long_sentences n) (tag_icon Orange) = true) /\
  startsWith msg_lowercase (tag_icon Orange) = true /\
  startsWith msg_grammar_ok (tag_icon Check) = true /\
  checkGrammarHeuristics (six_long (utf16 "We")) = [msg_long_sentences 6] /\
  checkGrammarHeuristics (utf16 "Hello there. This is fine.") = [msg_grammar_ok].
Proof.
  cbv zeta. split; [|repeat split; vm_compute; reflexivity].
  unfold checkGrammarHeuristics. rewrite longSentences_spaced.
  unfold lowercaseStart. rewrite filter_nonempty_existsb.
  destruct (5 <? length (spaced_sentences text))%nat;
    destruct (existsb _ (sentences text)); reflexivity.
Qed.

(** ** The review on sample environments *)

(** C3. A document with one font, one font size, one left margin and no
    bullet is collected without error, and the check still answers with the
    cross item instead of the success item: the text of page 1 is read off
    the promise of [getTextContent], which has no [items]. *)
Theorem formatting_clean_layout_reports_failure :
  extract_layout fs_ok (open_doc clean_doc) (utf16 "cv.pdf")
    = Ok (clean_doc, clean_layout) /\
  (length (fonts clean_layout) <= 2)%nat /\
  (length (fontSizes clean_layout) <= 4)%nat /\
  leftVar (leftPositions clean_layout) = Int 0 /\
  layout_flags clean_layout = [] /\
  match_all re_bullet (utf16 "Hello" ++ [10] ++ utf16 "Hello") = [] /\
  checkFormattingConsistency fs_ok (open_doc clean_doc) (utf16 "cv.pdf")
    = [msg_format_failed].
Proof. repeat split; try reflexivity; cbn; lia. Qed.

(** With three fonts the warning comes first and the cross item follows. *)
Example formatting_three_fonts :
  checkFormattingConsistency fs_ok (open_doc three_font_doc) (utf16 "cv.pdf")
  = [msg_fonts; msg_format_failed].
Proof. reflexivity. Qed.

(** C2 on a missing file and on a document whose second page cannot be
    fetched. *)
Lemma checkFormattingConsistency_failure_witness :
  checkFormattingConsistency fs_missing open_fails (utf16 "cv.pdf")
    = [msg_format_failed] /\
  checkFormattingConsistency fs_ok (open_doc broken_page_doc) (utf16 "cv.pdf")
    = [msg_format_failed].
Proof.
  split.
  - apply (@checkFormattingConsistency_failure fs_missing open_fails
             (utf16 "cv.pdf")).
    left. eexists. reflexivity.
  - apply (@checkFormattingConsistency_failure fs_ok (open_doc broken_page_doc)
             (utf16 "cv.pdf")).
    right. right. exists (utf16 "%PDF-1.4"), broken_page_doc.
    split; [reflexivity|]. split; [reflexivity|].
    left. exists 2%nat. split; [cbn; auto|].
    left. eexists. reflexivity.
Defined.

(** C6 on text runs that carry no transform. *)
Lemma empty_leftPositions_witness :
  leftVar [] = NegInf /\
  ~ In msg_alignment
      (checkFormattingConsistency fs_ok (open_doc no_transform_doc)
         (utf16 "cv.pdf")).
Proof.
  destruct (@empty_leftPositions_no_alignment_flag fs_ok
              (open_doc no_transform_doc) (utf16 "cv.pdf") no_transform_doc
              no_transform_layout eq_refl eq_refl) as (V & _ & _ & H).
  split; [exact V|exact H].
Defined.

(** C5 with a similarity of one third. *)
Lemma checkKeywordMatch_witness :
  checkKeywordMatch third_similar id_string (utf16 "resume text") None = [] /\
  exists n,
    0 <= n <= 10000 /\
    checkKeywordMatch third_similar id_string (utf16 "resume text")
      (Some (utf16 "engineer"))
    = [msg_keyword_prefix ++ fixed2_digits n ++ utf16 "%"].
Proof.
  assert (R : forall a b : jsstring, (0 <= third_similar a b <= 1)%Q).
  { intros a b. unfold third_similar. split; lra. }
  split.
  - apply (@checkKeywordMatch_spec third_similar id_string (utf16 "resume text")
             None R).
    now left.
  - destruct (@checkKeywordMatch_spec third_similar id_string
                (utf16 "resume text") (Some (utf16 "engineer")) R)
      as (_ & H & _).
    exact (H _ _ eq_refl).
Defined.

Example keyword_one_third :
  checkKeywordMatch third_similar id_string (utf16 "resume text")
    (Some (utf16 "engineer"))
  = [utf16 "🟢 Keyword match score: 33.33%"].
Proof. reflexivity. Qed.

(** The product is rounded as a double before it is printed: for the double
    nearest 0.01875 the exact product is just below 1.875 and the rounded one
    is 1.875. *)
Example keyword_rounded_product :
  toFixed2 (double_mul (round_double (3 # 160)) 100) = utf16 "1.88" /\
  toFixed2 (round_double (3 # 160) * 100) = utf16 "1.87" /\
  (round_double (1 # 10) == 3602879701896397 # 36028797018963968)%Q.
Proof. split; [|split]; vm_compute; reflexivity. Qed.

(** C4 on a PDF whose parse carries no text. *)
Lemma reviewResume_empty_text_witness :
  reviewResume fs_ok (pdf_with_text None) (open_doc clean_doc) third_similar
    id_string id_string (utf16 "cv.pdf") None []
  = (Ok Undefined,
     [utf16 "📄 Analyzing resume: cv.pdf";
      utf16 "❌ Could not read text from file."]).
Proof.
  destruct (@reviewResume_empty_text fs_ok (pdf_with_text None)
              (open_doc clean_doc) third_similar id_string id_string
              (utf16 "cv.pdf") None []) as [E _].
  - exists (utf16 "%PDF-1.4"), {| text := None |}. auto.
  - exact E.
Defined.

(** C8 on a missing file. *)
Lemma reviewResume_read_failure_witness :
  reviewResume fs_missing (pdf_with_text None) (open_doc clean_doc)
    third_similar id_string id_string (utf16 "cv.pdf") None []
  = (Throw (IOError (utf16 "ENOENT: no such file or directory")),
     [utf16 "📄 Analyzing resume: cv.pdf"]).
Proof.
  destruct (@reviewResume_read_failure fs_missing (pdf_with_text None)
              (open_doc clean_doc) third_similar id_string id_string
              (utf16 "cv.pdf") None []
              (IOError (utf16 "ENOENT: no such file or directory")))
    as (_ & E & _).
  - left. reflexivity.
  - exact E.
Defined.

(** A complete review, for reference: a short text without contact details,
    on the one-page document. *)
Example review_short_text :
  fst (reviewResume fs_ok (pdf_with_text (Some (utf16 "Built a compiler.")))
         (open_doc clean_doc) third_similar id_string id_string
         (utf16 "cv.pdf") None [])
  = Ok (ReviewResult 65
          [msg_projects; msg_contact; msg_image_based; msg_grammar_ok;
           msg_format_failed]).
Proof. reflexivity. Qed.

(** * Further properties *)

(** ** The scorer as a function of the feedback *)

Lemma calculateScore_sum_weights (results : list jsstring) :
  calculateScore results = Z.max 0 (100 - sum_weights results).
Proof. unfold calculateScore. cbv zeta. now rewrite fold_deduct. Qed.

Lemma sum_weights_cons (r : jsstring) (l : list jsstring) :
  sum_weights (r :: l) = item_weight r + sum_weights l.
Proof. reflexivity. Qed.

Lemma sum_weights_app (l l' : list jsstring) :
  sum_weights (l ++ l') = sum_weights l + sum_weights l'.
Proof.
  induction l as [|r l IH]; [reflexivity|].
  cbn [app]. rewrite !sum_weights_cons. lia.
Qed.

Lemma item_weight_le_15 (r : jsstring) : item_weight r <= 15.
Proof.
  unfold item_weight. destruct (leading_tag r) as [[]|]; cbn; lia.
Qed.

Lemma sum_weights_le (l : list jsstring) :
  sum_weights l <= 15 * Z.of_nat (length l).
Proof.
  induction l as [|r l IH]; [cbn; lia|].
  rewrite sum_weights_cons. cbn [length].
  pose proof (item_weight_le_15 r). lia.
Qed.

(** An item carries no deduction exactly when it starts with none of the
    four icons of the table. *)
Lemma item_weight_zero (r : jsstring) :
  item_weight r = 0 <-> matching_icons r = [].
Proof.
  unfold item_weight, leading_tag, matching_icons, deductions, all_tags,
    tag_icon.
  icons.
  destruct r as [|c1 [|c2 r']];
    cbn [filter find startsWith fst snd weight andb];
    split_eqb; cbn; split; intros H; try reflexivity; try discriminate;
    try lia.
Qed.

Lemma sum_weights_zero (l : list jsstring) :
  sum_weights l = 0 <-> Forall (fun r => matching_icons r = []) l.
Proof.
  induction l as [|r l IH].
  - split; [constructor|reflexivity].
  - rewrite sum_weights_cons.
    pose proof (item_weight_nonneg r). pose proof (sum_weights_nonneg l).
    split.
    + intros E. constructor; [apply item_weight_zero|apply IH]; lia.
    + intros F. inversion F as [|? ? Hr Hl]; subst.
      apply item_weight_zero in Hr. apply IH in Hl. lia.
Qed.

(** X1. The score does not depend on the order of the feedback items. *)
Theorem calculateScore_permutation (l l' : list jsstring) :
  Permutation l l' -> calculateScore l = calculateScore l'.
Proof.
  intros P. rewrite !calculateScore_sum_weights. f_equal. f_equal.
  induction P as [|r l l' P IH|a b l|l l' l'' P IH P' IH'].
  - reflexivity.
  - rewrite !sum_weights_cons. lia.
  - rewrite !sum_weights_cons. lia.
  - lia.
Qed.

Lemma calculateScore_permutation_witness :
  calculateScore [msg_contact; msg_projects; msg_grammar_ok]
  = calculateScore [msg_projects; msg_grammar_ok; msg_contact].
Proof.
  apply calculateScore_permutation.
  apply Permutation_cons_append with (l := [msg_projects; msg_grammar_ok]).
Defined.

(** X2. More feedback never raises the score, and lowers it by at most 15
    per item added. *)
Theorem calculateScore_app_bounds (l l' : list jsstring) :
  calculateScore l - 15 * Z.of_nat (length l') <= calculateScore (l ++ l')
  /\ calculateScore (l ++ l') <= calculateScore l.
Proof.
  rewrite !calculateScore_sum_weights, sum_weights_app.
  pose proof (sum_weights_nonneg l'). pose proof (sum_weights_le l'). lia.
Qed.

(** X3. The score is 100 exactly when no item starts with one of the four
    icons of the deduction table, and 0 exactly when the weights of the items
    add up to 100 or more. *)
Theorem calculateScore_extremes (l : list jsstring) :
  (calculateScore l = 100 <-> Forall (fun r => matching_icons r = []) l) /\
  (calculateScore l = 0 <-> 100 <= sum_weights l).
Proof.
  rewrite calculateScore_sum_weights, <- sum_weights_zero.
  pose proof (sum_weights_nonneg l). lia.
Qed.

(** ** Splitting and joining *)

Lemma split_on_go_cons (p : Z -> bool) (s cur : jsstring) :
  exists h t, split_on_go p cur s = h :: t.
Proof.
  revert cur. induction s as [|c s IH]; intros cur; cbn [split_on_go].
  - eauto.
  - destruct (p c); eauto.
Qed.

Lemma join_cons (sep x : jsstring) (l : list jsstring) :
  l <> [] -> join sep (x :: l) = x ++ sep ++ join sep l.
Proof. destruct l; [congruence|reflexivity]. Qed.

Lemma split_on_go_join (c : Z) (s cur : jsstring) :
  join [c] (split_on_go (Z.eqb c) cur s) = rev cur ++ s.
Proof.
  revert cur. induction s as [|x s IH]; intros cur; cbn [split_on_go].
  - cbn. now rewrite app_nil_r.
  - destruct (Z.eqb_spec c x) as [<-|N].
    + destruct (split_on_go_cons (Z.eqb c) s []) as (h & t & E).
      rewrite join_cons by (rewrite E; discriminate).
      rewrite IH. reflexivity.
    + rewrite IH. cbn [rev]. now rewrite <- app_assoc.
Qed.

Lemma split_str_go_cons (sep : jsstring) (s : jsstring) :
  forall skip cur, exists h t, split_str_go sep skip cur s = h :: t.
Proof.
  induction s as [|c s IH]; intros skip cur; cbn [split_str_go].
  - eauto.
  - destruct skip; [|apply IH]. destruct (startsWith (c :: s) sep); eauto.
Qed.

Lemma startsWith_app (s sep : jsstring) :
  startsWith s sep = true -> s = sep ++ skipn (length sep) s.
Proof.
  revert s. induction sep as [|i sep IH]; intros s H; [reflexivity|].
  destruct s as [|c s]; [discriminate|]. cbn [startsWith] in H.
  apply andb_true_iff in H. destruct H as [E H]. apply Z.eqb_eq in E.
  subst c. cbn [length skipn app]. f_equal. now apply IH.
Qed.

Lemma startsWith_length (s sep : jsstring) :
  startsWith s sep = true -> (length sep <= length s)%nat.
Proof.
  intros H. apply startsWith_app in H.
  apply (f_equal (@length Z)) in H. rewrite length_app in H. lia.
Qed.

Lemma split_str_go_join (sep : jsstring) (s : jsstring) :
  sep <> [] ->
  forall skip cur,
    (skip <= length s)%nat ->
    join sep (split_str_go sep skip cur s) = rev cur ++ skipn skip s.
Proof.
  intros Hsep. induction s as [|c s IH]; intros skip cur Hk.
  - cbn in Hk. assert (skip = 0%nat) by lia. subst. cbn.
    now rewrite app_nil_r.
  - cbn [split_str_go]. destruct skip as [|k].
    + destruct (startsWith (c :: s) sep) eqn:W.
      * destruct (split_str_go_cons sep s (length sep - 1) []) as (h & t & E).
        rewrite join_cons by (rewrite E; discriminate).
        pose proof (startsWith_length _ _ W) as L. cbn [length] in L.
        destruct sep as [|i sep]; [congruence|].
        rewrite IH by (cbn [length] in *; lia).
        apply startsWith_app in W. cbn [length skipn app] in W.
        replace (length (i :: sep) - 1)%nat with (length sep)
          by (cbn [length]; lia).
        cbn [rev skipn app]. now rewrite W.
      * rewrite IH by lia. cbn [rev skipn]. now rewrite <- app_assoc.
    + cbn [length] in Hk. rewrite IH by lia. reflexivity.
Qed.

Lemma substring_join (sep x : jsstring) (l : list jsstring) :
  In x l -> substring x (join sep l).
Proof.
  induction l as [|y l IH]; [intros []|]. intros H.
  destruct l as [|z l].
  - destruct H as [->|[]]. exists [], []. cbn. now rewrite app_nil_r.
  - rewrite join_cons by discriminate. destruct H as [->|H].
    + exists [], (sep ++ join sep (z :: l)). reflexivity.
    + destruct (IH H) as (a & b & E). exists (y ++ sep ++ a), b.
      rewrite E. now rewrite <- !app_assoc.
Qed.

Lemma split_join_lemma (text : jsstring) :
  join [10; 10] (split_str [10; 10] text) = text /\
  join [10] (split_on (Z.eqb 10) text) = text /\
  join [32] (split_on (Z.eqb 32) text) = text.
Proof.
  split; [|split].
  - unfold split_str. rewrite split_str_go_join; [reflexivity|discriminate|].
    apply Nat.le_0_l.
  - apply (split_on_go_join 10 text []).
  - apply (split_on_go_join 32 text []).
Qed.

(** X4. The sections, the lines and the space-separated words that the
    checks iterate over partition their text: joined again with the
    separator, they give the text back. *)
Theorem split_join_round_trip (text : jsstring) :
  join [10; 10] (split_str [10; 10] text) = text /\
  join [10] (split_on (Z.eqb 10) text) = text /\
  join [32] (split_on (Z.eqb 32) text) = text.
Proof. exact (split_join_lemma text). Qed.

(** ** Global matches *)

Lemma match_all_nil (r : regex) (s : jsstring) :
  match_all r s = [] <-> search r [] s = None.
Proof.
  unfold match_all. cbn [match_all_go].
  destruct (search r [] s) as [[[b0 a0] [b1 a1]]|]; [|tauto].
  destruct (firstn (length a0 - length a1) a0), a1; split; discriminate.
Qed.

Lemma search_bullet (after before : list Z) :
  match search re_bullet before after with
  | Some _ => true
  | None => false
  end = bullet_line_go (line_start before) after.
Proof.
  revert before. induction after as [|c after IH]; intros before.
  - cbn. now destruct before as [|x before]; [|destruct (is_line_terminator x)].
  - cbn [search bullet_line_go]. unfold re_bullet. cbn [rmatch fst snd].
    destruct before as [|x before]; cbn [line_start].
    + destruct (is_bullet c); [reflexivity|]. cbn [andb orb]. apply IH.
    + destruct (is_line_terminator x); cbn [andb orb]; [|apply IH].
      destruct (is_bullet c); [reflexivity|]. apply IH.
Qed.

(** No line starts with a bullet exactly when the bullet pattern has no
    match. *)
Lemma bulletCount_zero (sec : jsstring) :
  (length (match_all re_bullet sec) =? 0)%nat = negb (has_bullet_line sec).
Proof.
  unfold has_bullet_line.
  pose proof (search_bullet sec []) as B. cbn [line_start] in B.
  rewrite <- B. clear B.
  destruct (search re_bullet [] sec) eqn:S.
  - destruct (match_all re_bullet sec) eqn:M; [|reflexivity].
    apply match_all_nil in M. congruence.
  - apply match_all_nil in S. now rewrite S.
Qed.

Lemma bullet_line_go_spec (s : jsstring) (before : list Z) :
  bullet_line_go (line_start before) s = true <->
  exists a c b,
    s = a ++ c :: b /\ is_bullet c = true /\ line_start (rev a ++ before) = true.
Proof.
  revert before. induction s as [|x s IH]; intros before; cbn [bullet_line_go].
  - split; [discriminate|]. intros (a & c & b & E & _). destruct a; discriminate.
  - rewrite orb_true_iff, andb_true_iff.
    change (is_line_terminator x) with (line_start (x :: before)).
    rewrite IH. split.
    + intros [[L B]|(a & c & b & -> & B & L)].
      * exists [], x, s. auto.
      * exists (x :: a), c, b. cbn [rev]. rewrite <- app_assoc. auto.
    + intros (a & c & b & E & B & L). destruct a as [|y a].
      * cbn in E, L. injection E as -> ->. auto.
      * cbn in E. injection E as -> ->. right. exists a, c, b.
        cbn [rev] in L. rewrite <- app_assoc in L. auto.
Qed.

Lemma has_bullet_line_spec (s : jsstring) :
  has_bullet_line s = true <-> bullet_at_line_start s.
Proof.
  unfold has_bullet_line, bullet_at_line_start.
  pose proof (bullet_line_go_spec s []) as B.
  change (line_start []) with true in B.
  rewrite B. now setoid_rewrite app_nil_r.
Qed.

Lemma search_Chr (c : Z) (after before : list Z) :
  (search (Chr c) before after = None /\ filter (Z.eqb c) after = []) \/
  (exists pre a1,
      after = pre ++ c :: a1 /\ filter (Z.eqb c) pre = [] /\
      search (Chr c) before after =
        Some ((rev pre ++ before, c :: a1), (c :: rev pre ++ before, a1))).
Proof.
  revert before. induction after as [|x after IH]; intros before.
  - left. split; reflexivity.
  - cbn [search filter]. unfold Chr at 1 3. cbn [rmatch fst snd].
    destruct (Z.eqb_spec c x) as [<-|N].
    + right. exists [], after. auto.
    + destruct (IH (x :: before)) as [[S F]|(pre & a1 & -> & F & S)].
      * left. auto.
      * right. exists (x :: pre), a1. cbn [filter rev app].
        destruct (Z.eqb_spec c x); [congruence|].
        rewrite <- app_assoc. auto.
Qed.

Lemma match_all_go_Chr (c : Z) (fuel : nat) :
  forall after before,
    (length after < fuel)%nat ->
    length (match_all_go fuel (Chr c) before after)
    = length (filter (Z.eqb c) after).
Proof.
  induction fuel as [|fuel IH]; intros after before L; [lia|].
  cbn [match_all_go].
  destruct (search_Chr c after before) as [[-> ->]|(pre & a1 & -> & F & ->)];
    [reflexivity|].
  replace (length (c :: a1) - length a1)%nat with 1%nat by (cbn [length]; lia).
  cbn [firstn length]. rewrite IH.
  - rewrite filter_app, F. cbn [app filter]. now rewrite Z.eqb_refl.
  - rewrite length_app in L. cbn [length] in L. lia.
Qed.

(** The number of matches of the full-stop pattern is the number of full
    stops. *)
Lemma sentenceCount_dots (sec : jsstring) :
  length (match_all re_dot sec) = count_dots sec.
Proof. apply match_all_go_Chr. lia. Qed.

Lemma flat_map_nil {A B : Type} (f : A -> list B) (l : list A) :
  (forall x, In x l -> f x = []) -> flat_map f l = [].
Proof.
  induction l as [|x l IH]; intros H; [reflexivity|].
  cbn [flat_map]. rewrite (H x) by now left.
  apply IH. intros y Hy. apply H. now right.
Qed.

Lemma count_dots_substring (x s : jsstring) :
  substring x s -> (count_dots x <= count_dots s)%nat.
Proof.
  intros (a & b & ->). unfold count_dots.
  rewrite !filter_app, !length_app. lia.
Qed.

(** ** Bullet usage *)

(** X5. A section is reported for long paragraphs exactly when it has more
    than five full stops and none of its lines starts with one of the glyphs
    - • ▪ *; the report carries the number of the section, counted from 1. *)
Theorem checkBulletPoints_spec (text : jsstring) :
  let sections := split_str [10; 10] text in
  checkBulletPoints text =
    flat_map
      (fun isec : nat * jsstring =>
         if (5 <? count_dots (snd isec))%nat && negb (has_bullet_line (snd isec))
         then [msg_long_paragraphs (fst isec)] else [])
      (combine (seq 0 (length sections)) sections) /\
  (forall sec, has_bullet_line sec = true <-> bullet_at_line_start sec) /\
  (forall i, startsWith (msg_long_paragraphs i) (tag_icon Orange) = true).
Proof.
  cbv zeta. split; [|split; [exact has_bullet_line_spec|reflexivity]].
  unfold checkBulletPoints. apply flat_map_ext. intros [i sec]. cbn [fst snd].
  now rewrite sentenceCount_dots, bulletCount_zero.
Qed.

(** X6. A text with at most five full stops is never reported for long
    paragraphs, however it is divided into sections. *)
Theorem checkBulletPoints_few_dots (text : jsstring) :
  (count_dots text <= 5)%nat -> checkBulletPoints text = [].
Proof.
  intros H. unfold checkBulletPoints. apply flat_map_nil.
  intros [i sec] Hin. cbn [fst snd]. rewrite sentenceCount_dots.
  apply in_combine_r in Hin.
  assert (S : substring sec text).
  { destruct (split_join_lemma text) as [E _]. rewrite <- E.
    now apply substring_join. }
  apply count_dots_substring in S.
  destruct (Nat.ltb_spec 5 (count_dots sec)); [lia|reflexivity].
Qed.

Lemma checkBulletPoints_few_dots_witness :
  checkBulletPoints (utf16 "Led a team. Shipped it. Done.") = [].
Proof.
  apply (checkBulletPoints_few_dots (utf16 "Led a team. Shipped it. Done.")).
  vm_compute. lia.
Defined.

(** ** Achievement quantification *)

Lemma contains_ci_substring (w x s : jsstring) :
  substring x s -> contains_ci w x -> contains_ci w s.
Proof.
  intros (a & b & ->) (p & m & q & -> & E).
  exists (a ++ p), m, (q ++ b). split; [|exact E].
  now rewrite <- !app_assoc.
Qed.

Lemma substring_line (line text : jsstring) :
  In line (split_on (Z.eqb 10) text) -> substring line text.
Proof.
  intros H. destruct (split_join_lemma text) as (_ & E & _).
  rewrite <- E. now apply substring_join.
Qed.

Lemma msg_quantify_weight : item_weight msg_quantify = 0.
Proof. reflexivity. Qed.

Lemma flat_map_length_le {A B : Type} (f : A -> list B) (l : list A) :
  (forall x, length (f x) <= 1)%nat -> (length (flat_map f l) <= length l)%nat.
Proof.
  intros H. induction l as [|x l IH]; [reflexivity|].
  cbn [flat_map length]. rewrite length_app. specialize (H x). lia.
Qed.

(** X7. The achievement check emits at most one item per line, always the
    same green item, which carries no deduction; a text that names none of
    "experience", "achievement", "project", "work" in any case gets no item
    at all. *)
Theorem checkAchievements_items (text : jsstring) :
  Forall (eq msg_quantify) (checkAchievements text) /\
  (length (checkAchievements text) <= S (count_newlines text))%nat /\
  sum_weights (checkAchievements text) = 0 /\
  (no_achievement_keyword text -> checkAchievements text = []).
Proof.
  unfold checkAchievements. cbv zeta. split; [|split; [|split]].
  - apply Forall_forall. intros r H. apply in_flat_map in H.
    destruct H as (line & _ & H). unfold achievement_items in H.
    destruct (lacks_quantity line); [|destruct H].
    destruct H as [H|[]]. exact H.
  - unfold count_newlines. rewrite <- (split_on_go_length (Z.eqb 10) text []).
    apply flat_map_length_le. intros line. unfold achievement_items.
    destruct (lacks_quantity line); cbn; lia.
  - induction (split_on (Z.eqb 10) text) as [|line l IH]; [reflexivity|].
    cbn [flat_map]. rewrite sum_weights_app, IH. unfold achievement_items.
    destruct (lacks_quantity line); reflexivity.
  - intros (N1 & N2 & N3 & N4). apply flat_map_nil. intros line Hin.
    unfold achievement_items.
    destruct (lacks_quantity line) eqn:L; [|reflexivity].
    apply lacks_quantity_iff in L. destruct L as [K _].
    apply substring_line in Hin.
    destruct K as [K|[K|[K|K]]];
      apply (contains_ci_substring Hin) in K; contradiction.
Qed.

Lemma checkAchievements_items_witness :
  checkAchievements (utf16 "Built a compiler.") = [].
Proof.
  apply (checkAchievements_items (utf16 "Built a compiler.")).
  repeat split; intros H; apply test_LitI in H; vm_compute in H;
    discriminate.
Defined.

(** ** Sentences *)

Lemma split_on_go_pieces (p : Z -> bool) (s cur : jsstring) (x : jsstring) :
  In x (split_on_go p cur s) ->
  substring x (rev cur ++ s) /\
  (forall c, In c x -> In c cur \/ p c = false).
Proof.
  revert cur. induction s as [|c s IH]; intros cur H; cbn [split_on_go] in H.
  - destruct H as [<-|[]]. split.
    + exists [], []. cbn. now rewrite !app_nil_r.
    + intros c Hc. left. now apply in_rev.
  - destruct (p c) eqn:P.
    + destruct H as [<-|H].
      * split.
        -- exists [], (c :: s). reflexivity.
        -- intros d Hd. left. now apply in_rev.
      * apply IH in H. destruct H as [(a & b & E) F]. split.
        -- exists (rev cur ++ c :: a), b. cbn in E. rewrite E.
           rewrite <- !app_assoc. reflexivity.
        -- intros d Hd. destruct (F d Hd) as [[]|Q]. now right.
    + apply IH in H. destruct H as [(a & b & E) F]. split.
      * exists a, b. cbn [rev] in E. rewrite <- app_assoc in E. exact E.
      * intros d Hd. destruct (F d Hd) as [[<-|I]|Q]; auto.
Qed.

Lemma list_sum_cons (n : nat) (l : list nat) :
  list_sum (n :: l) = (n + list_sum l)%nat.
Proof. reflexivity. Qed.

Lemma list_sum_filter_le (f : jsstring -> nat) (g : jsstring -> bool)
  (l : list jsstring) :
  (list_sum (map f (filter g l)) <= list_sum (map f l))%nat.
Proof.
  induction l as [|x l IH]; [reflexivity|].
  cbn [filter]. destruct (g x); cbn [map]; rewrite ?list_sum_cons; lia.
Qed.

Lemma list_sum_ge (f : jsstring -> nat) (n : nat) (l : list jsstring) :
  Forall (fun x => (n <= f x)%nat) l ->
  (n * length l <= list_sum (map f l))%nat.
Proof.
  induction 1 as [|x l H F IH]; cbn [map length];
    rewrite ?list_sum_cons; [cbn; lia|lia].
Qed.

Lemma split_on_go_spaces (p : Z -> bool) (s cur : jsstring) :
  (list_sum (map count_spaces (split_on_go p cur s))
   <= count_spaces (rev cur ++ s))%nat.
Proof.
  unfold count_spaces. revert cur.
  induction s as [|c s IH]; intros cur; cbn [split_on_go].
  - cbn [map]. rewrite list_sum_cons, app_nil_r. cbn [list_sum fold_right]. lia.
  - destruct (p c).
    + cbn [map]. rewrite list_sum_cons. specialize (IH []).
      cbn [rev app] in IH.
      rewrite filter_app, length_app. cbn [filter].
      destruct (32 =? c); cbn [length]; lia.
    + specialize (IH (c :: cur)). cbn [rev] in IH.
      now rewrite <- app_assoc in IH.
Qed.

Lemma longSentences_le_5 (text : jsstring) :
  (count_sentence_ends text < 5)%nat \/ (count_spaces text < 150)%nat ->
  (length (longSentences text) <= 5)%nat.
Proof.
  intros [H|H].
  - unfold longSentences, sentences.
    pose proof (split_on_go_length is_sentence_end text []) as L.
    fold (split_on is_sentence_end text) in L.
    pose proof (filter_length_le
                  (fun s => (25 <? length (split_on (Z.eqb 32) s))%nat)
                  (filter (fun s => (0 <? length (trim s))%nat)
                     (split_on is_sentence_end text))).
    pose proof (filter_length_le (fun s => (0 <? length (trim s))%nat)
                  (split_on is_sentence_end text)).
    unfold count_sentence_ends in H. lia.
  - rewrite longSentences_spaced. unfold spaced_sentences, sentences.
    pose proof (split_on_go_spaces is_sentence_end text []) as S.
    fold (split_on is_sentence_end text) in S. cbn [rev app] in S.
    set (pieces := split_on is_sentence_end text) in *.
    set (kept := filter (fun s => (0 <? length (trim s))%nat) pieces).
    set (long := filter (fun s => (25 <=? count_spaces s)%nat) kept).
    pose proof (list_sum_filter_le count_spaces
                  (fun s => (0 <? length (trim s))%nat) pieces) as A.
    pose proof (list_sum_filter_le count_spaces
                  (fun s => (25 <=? count_spaces s)%nat) kept) as B.
    assert (F : Forall (fun x => (25 <= count_spaces x)%nat) long).
    { apply Forall_forall. intros x Hx. apply filter_In in Hx.
      destruct Hx as [_ Hx]. now apply Nat.leb_le in Hx. }
    apply list_sum_ge in F. fold kept in A. fold long in B. lia.
Qed.

(** X8. Every sentence of the grammar check is a piece of the text that holds
    no terminator . ! ? and is not blank, and there is at most one more
    sentence than terminators; the check returns one or two items, never
    none. *)
Theorem sentences_invariant (text : jsstring) :
  Forall
    (fun s =>
       substring s text /\ forallb (fun c => negb (is_sentence_end c)) s = true
       /\ trim s <> [])
    (sentences text) /\
  (length (sentences text) <= S (count_sentence_ends text))%nat /\
  (1 <= length (checkGrammarHeuristics text) <= 2)%nat.
Proof.
  split; [|split].
  - apply Forall_forall. intros s H. unfold sentences in H.
    apply filter_In in H. destruct H as [H T].
    apply split_on_go_pieces in H. destruct H as [S F]. split; [exact S|].
    split.
    + apply forallb_forall. intros c Hc. destruct (F c Hc) as [[]| ->].
      reflexivity.
    + intros E. rewrite E in T. discriminate.
  - unfold sentences, count_sentence_ends.
    rewrite <- (split_on_go_length is_sentence_end text []).
    apply filter_length_le.
  - unfold checkGrammarHeuristics.
    destruct (5 <? length (longSentences text))%nat,
      (0 <? length (lowercaseStart text))%nat; cbn; lia.
Qed.

(** X9. A text with fewer than five sentence terminators, or with fewer
    than 150 space characters, is never reported for long sentences: the
    grammar check returns the capitalization item or the success item
    alone. *)
Theorem checkGrammarHeuristics_short_text (text : jsstring) :
  (count_sentence_ends text < 5)%nat \/ (count_spaces text < 150)%nat ->
  checkGrammarHeuristics text =
    if existsb (fun s => starts_lowercase (trim s)) (sentences text)
    then [msg_lowercase] else [msg_grammar_ok].
Proof.
  intros H. apply longSentences_le_5 in H. unfold checkGrammarHeuristics.
  destruct (Nat.ltb_spec 5 (length (longSentences text))); [lia|].
  unfold lowercaseStart. rewrite filter_nonempty_existsb.
  now destruct (existsb _ (sentences text)).
Qed.

Lemma checkGrammarHeuristics_short_text_witness :
  checkGrammarHeuristics (utf16 "hello there. This is fine.") = [msg_lowercase].
Proof.
  apply (checkGrammarHeuristics_short_text (utf16 "hello there. This is fine.")).
  left. vm_compute. lia.
Defined.

(** ** Matches are pieces of the text *)

Lemma rmatch_Some_advanced (r : regex) (st e : pos) :
  rmatch r Some st = Some e -> advanced st e.
Proof.
  intros H. apply rmatch_advances in H. destruct H as (st' & A & E).
  now injection E as <-.
Qed.

Lemma search_sound (r : regex) (after before : list Z) (s0 e : pos) :
  search r before after = Some (s0, e) ->
  advanced (before, after) s0 /\ rmatch r Some s0 = Some e.
Proof.
  revert before. induction after as [|c after IH]; intros before H;
    cbn [search] in H.
  - destruct (rmatch r Some (before, [])) eqn:M; [|discriminate].
    injection H as <- <-. split; [apply advanced_refl|exact M].
  - destruct (rmatch r Some (before, c :: after)) eqn:M.
    + injection H as <- <-. split; [apply advanced_refl|exact M].
    + apply IH in H. destruct H as [A R]. split; [|exact R].
      eapply advanced_trans; [|exact A]. exists [c]. auto.
Qed.

Lemma advanced_firstn (a0 a1 b0 b1 : list Z) :
  advanced (b0, a0) (b1, a1) ->
  a0 = firstn (length a0 - length a1) a0 ++ a1.
Proof.
  intros (m & Hm & _). cbn [fst snd] in Hm. subst a0.
  rewrite length_app, Nat.add_sub, firstn_app, Nat.sub_diag, firstn_all.
  cbn [firstn]. now rewrite app_nil_r.
Qed.

Lemma match_all_go_sound (r : regex) (fuel : nat) :
  forall before after m,
    In m (match_all_go fuel r before after) ->
    exists b0 e,
      advanced (before, after) (b0, m ++ snd e) /\
      rmatch r Some (b0, m ++ snd e) = Some e.
Proof.
  induction fuel as [|fuel IH]; intros before after m H; [destruct H|].
  cbn [match_all_go] in H.
  destruct (search r before after) as [[[b0 a0] [b1 a1]]|] eqn:S;
    [|destruct H].
  apply search_sound in S. destruct S as [A R].
  pose proof (rmatch_Some_advanced _ _ R) as A1.
  pose proof (advanced_firstn A1) as E.
  set (m0 := firstn (length a0 - length a1) a0) in *.
  assert (Hhere : m = m0 ->
                  exists b e,
                    advanced (before, after) (b, m ++ snd e) /\
                    rmatch r Some (b, m ++ snd e) = Some e).
  { intros ->. exists b0, (b1, a1). cbn [snd]. rewrite <- E. auto. }
  assert (Hlater : forall b a,
             advanced (b1, a1) (b, a) ->
             In m (match_all_go fuel r b a) ->
             exists b' e,
               advanced (before, after) (b', m ++ snd e) /\
               rmatch r Some (b', m ++ snd e) = Some e).
  { intros b a A2 Hin. apply IH in Hin. destruct Hin as (b' & e & A3 & R3).
    exists b', e. split; [|exact R3].
    eapply advanced_trans; [exact A|].
    eapply advanced_trans; [exact A1|].
    eapply advanced_trans; [exact A2|exact A3]. }
  destruct m0 as [|x m0'] eqn:M0.
  - destruct a1 as [|c a1'].
    + destruct H as [<-|[]]. now apply Hhere.
    + destruct H as [<-|H]; [now apply Hhere|].
      apply (Hlater (c :: b1) a1'); [|exact H]. exists [c]. auto.
  - destruct H as [<-|H]; [now apply Hhere|].
    apply (Hlater b1 a1); [apply advanced_refl|exact H].
Qed.

(** Every global match is a piece of the text at which the pattern matches,
    ending where the piece ends. *)
Lemma match_all_sound (r : regex) (s m : jsstring) :
  In m (match_all r s) ->
  exists a b e,
    s = a ++ m ++ b /\ snd e = b /\ rmatch r Some (rev a, m ++ b) = Some e.
Proof.
  intros H. apply match_all_go_sound in H.
  destruct H as (b0 & e & (a & Ha & Hb) & R). cbn [fst snd] in Ha, Hb.
  rewrite app_nil_r in Hb. subst b0. exists a, (snd e), e. auto.
Qed.

(** ** Heading casing *)

Lemma rmatch_heading (before after : list Z) (e : pos) :
  rmatch re_heading Some (before, after) = Some e ->
  line_start before = true /\
  exists u x m,
    after = u :: x :: m ++ snd e /\ is_upper u = true /\
    forallb is_heading_char (x :: m) = true /\
    head_is (fun c => (c =? 10) || (c =? 58)) (snd e) = true.
Proof.
  unfold re_heading, Plus, Chr. cbn [rmatch fst snd]. intros H.
  assert (L : line_start before = true).
  { destruct before as [|c before]; [reflexivity|]. cbn.
    destruct (is_line_terminator c); [reflexivity|discriminate]. }
  split; [exact L|].
  assert (H' : match after with
               | u :: rest =>
                 if is_upper u
                 then rmatch
                        (Seq (Seq (Cls is_heading_char) (Star (Cls is_heading_char)))
                           (Ahead (Alt (Cls (Z.eqb 10)) (Cls (Z.eqb 58)))))
                        Some (u :: before, rest)
                 else None
               | [] => None
               end = Some e).
  { destruct before as [|c before]; [exact H|].
    destruct (is_line_terminator c); [exact H|discriminate]. }
  clear H. destruct after as [|u rest]; [discriminate|].
  destruct (is_upper u) eqn:U; [|discriminate].
  cbn [rmatch fst snd] in H'. destruct rest as [|x rest]; [discriminate|].
  destruct (is_heading_char x) eqn:X; [|discriminate].
  apply rmatch_Star_Cls in H'. destruct H' as (m & r1 & -> & F & H').
  cbn [rmatch fst snd] in H'.
  exists u, x, m. cbn [forallb]. rewrite X, F.
  destruct r1 as [|c r1]; [discriminate|].
  destruct (10 =? c) eqn:C10.
  - injection H' as <-. cbn [snd head_is].
    apply Z.eqb_eq in C10. subst c. auto.
  - destruct (58 =? c) eqn:C58; [|discriminate].
    injection H' as <-. cbn [snd head_is].
    apply Z.eqb_eq in C58. subst c. auto.
Qed.

Lemma headings_shape (text h : jsstring) :
  In h (match_all re_heading text) -> heading_at text h.
Proof.
  intros H. apply match_all_sound in H.
  destruct H as (a & b & e & E & Hb & R). apply rmatch_heading in R.
  destruct R as (L & u & x & m & Hh & U & F & N). rewrite Hb in Hh, N.
  assert (Eh : h = u :: x :: m).
  { apply (app_inv_tail b). exact Hh. }
  exists a, b, u, x, m. repeat split; assumption.
Qed.

(** X10. Every item of the heading check is about a heading-like run of the
    text (a capital A-Z and at least one more letter or whitespace, at the
    start of a line, directly followed by a line feed or a colon) that the
    title-casing changes; when it changes no such run, the check returns
    nothing. *)
Theorem checkHeadings_sound (titleCase : jsstring -> jsstring)
  (text : jsstring) :
  (forall item,
      In item (checkHeadings titleCase text) ->
      exists h,
        item = msg_heading h (titleCase h) /\ titleCase h <> h /\
        heading_at text h /\
        startsWith item (tag_icon Yellow) = true) /\
  ((forall h, heading_at text h -> titleCase h = h) ->
   checkHeadings titleCase text = []).
Proof.
  unfold checkHeadings. cbv zeta. split.
  - intros item H. apply in_flat_map in H. destruct H as (h & Hin & H).
    unfold jsstring_eqb in H.
    destruct (jsstring_eq_dec h (titleCase h)) as [E|N]; [destruct H|].
    destruct H as [<-|[]]. exists h.
    split; [reflexivity|]. split; [congruence|].
    split; [now apply headings_shape|reflexivity].
  - intros H. apply flat_map_nil. intros h Hin.
    apply headings_shape, H in Hin. unfold jsstring_eqb.
    destruct (jsstring_eq_dec h (titleCase h)); [reflexivity|congruence].
Qed.

Lemma checkHeadings_sound_witness :
  checkHeadings id_string (utf16 "Work Experience: ten years") = [].
Proof.
  apply (checkHeadings_sound id_string (utf16 "Work Experience: ten years")).
  intros h _. reflexivity.
Defined.

(** ** Layout collection *)

Lemma set_add_In {A : Type} (dec : forall a b : A, {a = b} + {a <> b})
  (x y : A) (s : list A) :
  In y (set_add dec x s) <-> y = x \/ In y s.
Proof.
  induction s as [|z s IH]; cbn [set_add].
  - cbn. intuition congruence.
  - destruct (dec x z) as [->|N]; cbn [In]; [|rewrite IH]; intuition congruence.
Qed.

Lemma set_add_NoDup {A : Type} (dec : forall a b : A, {a = b} + {a <> b})
  (x : A) (s : list A) :
  NoDup s -> NoDup (set_add dec x s).
Proof.
  induction s as [|z s IH]; intros H; cbn [set_add].
  - constructor; [intros []|constructor].
  - destruct (dec x z) as [->|N]; [exact H|].
    inversion H as [|? ? Hz Hs]; subst. constructor; [|now apply IH].
    rewrite set_add_In. intros [E|I]; congruence.
Qed.

Lemma scan_item_fonts (acc : Layout) (item : TextItem) (f : jsstring) :
  In f (fonts (scan_item acc item)) <-> In f (run_font item) \/ In f (fonts acc).
Proof.
  unfold scan_item, run_font.
  destruct (transform item), (fontName item) as [[|c g]|]; cbn [fonts In];
    rewrite ?set_add_In; intuition congruence.
Qed.

Lemma scan_item_sizes (acc : Layout) (item : TextItem) (z : number) :
  In z (fontSizes (scan_item acc item))
  <-> In z (run_size item) \/ In z (fontSizes acc).
Proof.
  unfold scan_item, run_size.
  destruct (transform item); cbn [fontSizes In];
    rewrite ?set_add_In; intuition congruence.
Qed.

Lemma scan_item_NoDup (acc : Layout) (item : TextItem) :
  NoDup (fonts acc) /\ NoDup (fontSizes acc) ->
  NoDup (fonts (scan_item acc item)) /\ NoDup (fontSizes (scan_item acc item)).
Proof.
  intros [F S]. unfold scan_item.
  destruct (transform item), (fontName item) as [[|c g]|];
    cbn [fonts fontSizes]; split; auto using set_add_NoDup.
Qed.

Lemma scan_item_left (acc : Layout) (item : TextItem) :
  leftPositions (scan_item acc item) = leftPositions acc ++ run_left item.
Proof.
  unfold scan_item, run_left.
  destruct (transform item); cbn [leftPositions]; now rewrite ?app_nil_r.
Qed.

Lemma collect_fold (its : list TextItem) :
  forall acc,
    NoDup (fonts acc) /\ NoDup (fontSizes acc) ->
    let acc' := fold_left scan_item its acc in
    NoDup (fonts acc') /\ NoDup (fontSizes acc') /\
    (forall f, In f (fonts acc')
               <-> In f (flat_map run_font its) \/ In f (fonts acc)) /\
    (forall z, In z (fontSizes acc')
               <-> In z (flat_map run_size its) \/ In z (fontSizes acc)) /\
    leftPositions acc' = leftPositions acc ++ flat_map run_left its.
Proof.
  induction its as [|item its IH]; intros acc N; cbv zeta; cbn [fold_left flat_map].
  - destruct N as [N1 N2]. split; [exact N1|]. split; [exact N2|].
    split; [intros f; cbn; tauto|]. split; [intros z; cbn; tauto|].
    symmetry. apply app_nil_r.
  - specialize (IH (scan_item acc item) (@scan_item_NoDup acc item N)).
    cbv zeta in IH. destruct IH as (N1 & N2 & F & S & L).
    split; [exact N1|]. split; [exact N2|]. split; [|split].
    + intros f. rewrite F, scan_item_fonts, in_app_iff. tauto.
    + intros z. rewrite S, scan_item_sizes, in_app_iff. tauto.
    + rewrite L, scan_item_left. now rewrite <- app_assoc.
Qed.

(** X11. The layout collected from a sequence of text runs holds every
    non-empty font name and every rounded font size exactly once, and the
    rounded left offsets of the runs that have a transform, in the order of
    the runs. *)
Theorem collected_layout (its : list TextItem) :
  let acc := fold_left scan_item its empty_layout in
  NoDup (fonts acc) /\ NoDup (fontSizes acc) /\
  (forall f, In f (fonts acc) <-> In f (flat_map run_font its)) /\
  (forall z, In z (fontSizes acc) <-> In z (flat_map run_size its)) /\
  leftPositions acc = flat_map run_left its.
Proof.
  assert (N : NoDup (fonts empty_layout) /\ NoDup (fontSizes empty_layout))
    by (split; constructor).
  destruct (collect_fold its empty_layout N) as (N1 & N2 & F & S & L).
  cbv zeta. split; [exact N1|]. split; [exact N2|]. split; [|split].
  - intros f. rewrite F. cbn. tauto.
  - intros z. rewrite S. cbn. tauto.
  - exact L.
Qed.

(** ** Alignment *)

Lemma fold_max2_Int (zs : list Z) (z : Z) :
  fold_left max2 (map Int zs) (Int z) = Int (fold_left Z.max zs z).
Proof.
  revert z. induction zs as [|x zs IH]; intros z; [reflexivity|].
  cbn [map fold_left max2]. apply IH.
Qed.

Lemma fold_min2_Int (zs : list Z) (z : Z) :
  fold_left min2 (map Int zs) (Int z) = Int (fold_left Z.min zs z).
Proof.
  revert z. induction zs as [|x zs IH]; intros z; [reflexivity|].
  cbn [map fold_left min2]. apply IH.
Qed.

Lemma fold_max_spec (zs : list Z) (z : Z) :
  let m := fold_left Z.max zs z in
  (m = z \/ In m zs) /\ z <= m /\ (forall x, In x zs -> x <= m).
Proof.
  revert z. induction zs as [|x zs IH]; intros z; cbv zeta; cbn [fold_left].
  - split; [now left|]. split; [lia|]. intros x [].
  - destruct (IH (Z.max z x)) as (M & L & U). cbv zeta in *.
    split; [|split].
    + destruct M as [M|M]; [|right; now apply in_cons].
      destruct (Z.max_spec z x) as [[_ E]|[_ E]]; rewrite E in M |- *.
      * right. rewrite M. now apply in_eq.
      * now left.
    + lia.
    + intros y [<-|Hy]; [lia|now apply U].
Qed.

Lemma fold_min_spec (zs : list Z) (z : Z) :
  let m := fold_left Z.min zs z in
  (m = z \/ In m zs) /\ m <= z /\ (forall x, In x zs -> m <= x).
Proof.
  revert z. induction zs as [|x zs IH]; intros z; cbv zeta; cbn [fold_left].
  - split; [now left|]. split; [lia|]. intros x [].
  - destruct (IH (Z.min z x)) as (M & L & U). cbv zeta in *.
    split; [|split].
    + destruct M as [M|M]; [|right; now apply in_cons].
      destruct (Z.min_spec z x) as [[_ E]|[_ E]]; rewrite E in M |- *.
      * now left.
      * right. rewrite M. now apply in_eq.
    + lia.
    + intros y [<-|Hy]; [lia|now apply U].
Qed.

Lemma fold_max2_NaN (l : list number) : fold_left max2 l NaN = NaN.
Proof. induction l as [|x l IH]; [reflexivity|]. cbn. exact IH. Qed.

Lemma fold_min2_NaN (l : list number) : fold_left min2 l NaN = NaN.
Proof. induction l as [|x l IH]; [reflexivity|]. cbn. exact IH. Qed.

Lemma Math_max_NaN (l : list number) : In NaN l -> Math_max l = NaN.
Proof.
  unfold Math_max. generalize NegInf as a.
  induction l as [|x l IH]; intros a H; [destruct H|].
  cbn [fold_left]. destruct H as [->|H]; [|now apply IH].
  replace (max2 a NaN) with NaN by now destruct a.
  apply fold_max2_NaN.
Qed.

(** X12. For integer left offsets the alignment warning is raised exactly
    when two of them differ by more than 30; a left offset that is not a
    number (a transform with fewer than five entries) silences it. *)
Theorem alignment_flag_spec (zs : list Z) (l : list number) :
  (gt (leftVar (map Int zs)) 30 = true <->
   exists x y, In x zs /\ In y zs /\ 30 < x - y) /\
  (In NaN l -> gt (leftVar l) 30 = false) /\
  (forall acc,
      In msg_alignment (layout_flags acc)
      <-> gt (leftVar (leftPositions acc)) 30 = true).
Proof.
  split; [|split].
  - unfold leftVar, Math_max, Math_min. destruct zs as [|z zs].
    + cbn. split; [discriminate|]. intros (x & y & [] & _).
    + cbn [map fold_left max2 min2]. rewrite fold_max2_Int, fold_min2_Int.
      cbn [sub gt]. rewrite Z.ltb_lt.
      destruct (fold_max_spec zs z) as (M & LM & UM).
      destruct (fold_min_spec zs z) as (N & LN & UN). cbv zeta in *.
      split.
      * intros H. exists (fold_left Z.max zs z), (fold_left Z.min zs z).
        split; [|split; [|exact H]].
        -- destruct M as [->|M]; [now left|now right].
        -- destruct N as [->|N]; [now left|now right].
      * intros (x & y & Hx & Hy & H).
        assert (x <= fold_left Z.max zs z)
          by (destruct Hx as [<-|Hx]; [exact LM|now apply UM]).
        assert (fold_left Z.min zs z <= y)
          by (destruct Hy as [<-|Hy]; [exact LN|now apply UN]).
        lia.
  - intros H. unfold leftVar. rewrite (Math_max_NaN l H). reflexivity.
  - intros acc. unfold layout_flags.
    destruct (2 <? length (fonts acc))%nat, (4 <? length (fontSizes acc))%nat,
      (gt (leftVar (leftPositions acc)) 30); cbn;
      split; intros H; try reflexivity; try discriminate; auto;
      repeat (destruct H as [H|H]; [vm_compute in H; discriminate|]);
      destruct H.
Qed.

Lemma alignment_flag_spec_witness :
  gt (leftVar (map Int [72; 110; 72])) 30 = true /\
  gt (leftVar [Int 72; NaN; Int 300]) 30 = false.
Proof.
  destruct (alignment_flag_spec [72; 110; 72] [Int 72; NaN; Int 300])
    as (A & B & _).
  split.
  - apply A. exists 110, 72. cbn. repeat split; auto.
  - apply B. cbn. auto.
Defined.

(** ** The review as a whole *)

Lemma sum_weights_const (w : Z) (l : list jsstring) :
  Forall (fun r => item_weight r = w) l ->
  sum_weights l = w * Z.of_nat (length l).
Proof.
  induction 1 as [|r l H F IH]; [cbn; lia|].
  rewrite sum_weights_cons, IH, H. cbn [length]. lia.
Qed.

Lemma last_app_nonempty {A : Type} (l l' : list A) (d : A) :
  l' <> [] -> last (l ++ l') d = last l' d.
Proof.
  intros N. induction l as [|x l IH]; [reflexivity|].
  cbn [app]. destruct (l ++ l') eqn:E.
  - apply app_eq_nil in E. destruct E. congruence.
  - rewrite <- IH. reflexivity.
Qed.

Lemma Forall_app_intro {A : Type} (P : A -> Prop) (l l' : list A) :
  Forall P l -> Forall P l' -> Forall P (l ++ l').
Proof. intros H H'. apply Forall_app. now split. Qed.

Lemma Forall_flat_map {A B : Type} (P : B -> Prop) (f : A -> list B)
  (l : list A) :
  (forall x, In x l -> Forall P (f x)) -> Forall P (flat_map f l).
Proof.
  intros H. apply Forall_forall. intros y Hy. apply in_flat_map in Hy.
  destruct Hy as (x & Hx & Hy). specialize (H x Hx).
  rewrite Forall_forall in H. now apply H.
Qed.

Lemma checkBulletPoints_weight (text : jsstring) :
  Forall (fun r => item_weight r = 7) (checkBulletPoints text).
Proof.
  unfold checkBulletPoints. cbv zeta. apply Forall_flat_map.
  intros [i sec] _. cbn [fst snd]. one_or_none.
Qed.

Lemma checkProjects_weight (text : jsstring) :
  Forall (fun r => item_weight r = 5) (checkProjects text).
Proof. unfold checkProjects. one_or_none. Qed.

Lemma checkContactFormatting_weight (text : jsstring) :
  Forall (fun r => item_weight r = 15) (checkContactFormatting text).
Proof. unfold checkContactFormatting. cbv zeta. cbn [app]. one_or_none. Qed.

Lemma checkHeadings_weight (titleCase : jsstring -> jsstring)
  (text : jsstring) :
  Forall (fun r => item_weight r = 5) (checkHeadings titleCase text).
Proof.
  unfold checkHeadings. cbv zeta. apply Forall_flat_map.
  intros h _. one_or_none.
Qed.

Lemma checkFileCompatibility_weight (text : jsstring) :
  Forall (fun r => item_weight r = 15) (checkFileCompatibility text).
Proof. unfold checkFileCompatibility. one_or_none. Qed.

Lemma checkKeywordMatch_weight (compareTwoStrings : jsstring -> jsstring -> Q)
  (toLowerCase : jsstring -> jsstring) (text : jsstring)
  (jobDesc : option jsstring) :
  sum_weights (checkKeywordMatch compareTwoStrings toLowerCase text jobDesc) = 0
  /\ Forall tagged (checkKeywordMatch compareTwoStrings toLowerCase text jobDesc)
  /\ (length (checkKeywordMatch compareTwoStrings toLowerCase text jobDesc)
      <= 1)%nat.
Proof.
  unfold checkKeywordMatch. cbv zeta.
  destruct (default_empty jobDesc); [repeat split; [constructor|cbn; lia]|].
  split; [reflexivity|]. split; [|cbn; lia].
  constructor; [|constructor]. unfold tagged. discriminate.
Qed.

Lemma checkGrammarHeuristics_weight (text : jsstring) :
  sum_weights (checkGrammarHeuristics text) =
  7 * (flag (5 <? length (longSentences text))%nat
       + flag (0 <? length (lowercaseStart text))%nat).
Proof.
  unfold checkGrammarHeuristics.
  destruct (5 <? length (longSentences text))%nat,
    (0 <? length (lowercaseStart text))%nat; reflexivity.
Qed.

Lemma layout_flags_weight (acc : Layout) :
  Forall (fun r => item_weight r = 10) (layout_flags acc) /\
  (length (layout_flags acc) <= 3)%nat /\
  ~ In msg_bullet_styles (layout_flags acc) /\
  ~ In msg_format_ok (layout_flags acc).
Proof.
  unfold layout_flags.
  destruct (2 <? length (fonts acc))%nat, (4 <? length (fontSizes acc))%nat,
    (gt (leftVar (leftPositions acc)) 30); cbn [app length];
    (split; [repeat constructor|split; [lia|]]);
    split; intros H;
    repeat (destruct H as [H|H]; [vm_compute in H; discriminate|]);
    exact H.
Qed.

Lemma weight_tagged (w : Z) (l : list jsstring) :
  w <> 0 -> Forall (fun r => item_weight r = w) l -> Forall tagged l.
Proof.
  intros N. apply Forall_impl. intros r H. unfold tagged.
  unfold item_weight in H. destruct (leading_tag r); [discriminate|congruence].
Qed.

Lemma checkGrammarHeuristics_tagged (text : jsstring) :
  Forall tagged (checkGrammarHeuristics text).
Proof.
  unfold checkGrammarHeuristics.
  destruct (5 <? length (longSentences text))%nat,
    (0 <? length (lowercaseStart text))%nat; cbn [app length Nat.eqb];
    repeat constructor; unfold tagged; discriminate.
Qed.

Lemma checkAchievements_tagged (text : jsstring) :
  Forall tagged (checkAchievements text).
Proof.
  unfold checkAchievements. cbv zeta. apply Forall_flat_map. intros line _.
  unfold achievement_items. destruct (lacks_quantity line);
    repeat constructor. unfold tagged. discriminate.
Qed.

Lemma checkAchievements_weight (text : jsstring) :
  sum_weights (checkAchievements text) = 0.
Proof.
  unfold checkAchievements. cbv zeta.
  induction (split_on (Z.eqb 10) text) as [|line l IH]; [reflexivity|].
  cbn [flat_map]. rewrite sum_weights_app, IH. unfold achievement_items.
  destruct (lacks_quantity line); reflexivity.
Qed.

Lemma fold_console_log (results log : list jsstring) :
  fold_left (fun log r => console_log [utf16 "•"; r] log) results log
  = log ++ map bullet_line results.
Proof.
  revert log. induction results as [|r results IH]; intros log;
    cbn [fold_left map].
  - now rewrite app_nil_r.
  - rewrite IH. unfold console_log. rewrite <- app_assoc. reflexivity.
Qed.

Lemma In_score_le (r : jsstring) (l : list jsstring) :
  In r l -> calculateScore l <= 100 - item_weight r.
Proof.
  intros H. apply in_split in H. destruct H as (a & b & ->).
  rewrite calculateScore_sum_weights, sum_weights_app, sum_weights_cons.
  pose proof (sum_weights_nonneg a). pose proof (sum_weights_nonneg b).
  pose proof (item_weight_le_15 r). lia.
Qed.

Section ReviewProperties.

Variable readFileSync : jsstring -> result (list Z).
Variable pdf : list Z -> result PdfData.
Variable getDocument : list Z -> result PDFDocument.
Variable compareTwoStrings : jsstring -> jsstring -> Q.
Variable toLowerCase : jsstring -> jsstring.
Variable titleCase : jsstring -> jsstring.

Lemma scan_pages_ok (doc : PDFDocument) (its : nat -> list TextItem)
  (pages : list nat) :
  forall acc,
    (forall i, In i pages ->
               exists page,
                 getPage doc i = Ok page /\
                 getTextContent page = Ok {| items := its i |}) ->
    scan_pages doc pages acc
    = Ok (fold_left scan_item (flat_map its pages) acc).
Proof.
  induction pages as [|i pages IH]; intros acc H; [reflexivity|].
  cbn [scan_pages flat_map]. destruct (H i (in_eq _ _)) as (page & P & T).
  rewrite P. cbn [bind]. unfold call_getTextContent. rewrite T.
  cbn [await bind items_receiver get_items items]. rewrite fold_left_app.
  apply IH. intros j Hj. apply H. now right.
Qed.

(** X13. When the file is read, the document opens and every page from 1 to
    [numPages] gives its text content, the layout is collected from the text
    runs of the pages in page order, and the check returns the flags of that
    layout followed by the cross item. *)
Theorem extract_layout_pages (filePath : jsstring) (data : list Z)
  (doc : PDFDocument) (its : nat -> list TextItem) :
  readFileSync filePath = Ok data ->
  getDocument data = Ok doc ->
  (forall i, In i (seq 1 (numPages doc)) ->
             exists page,
               getPage doc i = Ok page /\
               getTextContent page = Ok {| items := its i |}) ->
  let acc :=
    fold_left scan_item (flat_map its (seq 1 (numPages doc))) empty_layout in
  extract_layout readFileSync getDocument filePath = Ok (doc, acc) /\
  checkFormattingConsistency readFileSync getDocument filePath
  = layout_flags acc ++ [msg_format_failed].
Proof.
  intros R D H acc.
  assert (E : extract_layout readFileSync getDocument filePath = Ok (doc, acc)).
  { unfold extract_layout. rewrite R. cbn [bind]. rewrite D. cbn [bind].
    rewrite (scan_pages_ok doc its _ empty_layout H). reflexivity. }
  split; [exact E|].
  rewrite checkFormattingConsistency_cases, E. reflexivity.
Qed.

Lemma checkFormattingConsistency_items (filePath : jsstring) :
  let out := checkFormattingConsistency readFileSync getDocument filePath in
  (exists flags,
      out = flags ++ [msg_format_failed] /\
      Forall (fun r => In r [msg_fonts; msg_font_sizes; msg_alignment]) flags) /\
  (1 <= length out <= 4)%nat /\
  ~ In msg_bullet_styles out /\
  ~ In msg_format_ok out /\
  sum_weights out = 10 * (Z.of_nat (length out) - 1) /\
  sum_weights out <= 30.
Proof.
  cbv zeta. rewrite checkFormattingConsistency_cases.
  destruct (extract_layout readFileSync getDocument filePath) as [[doc acc]|e].
  - destruct (layout_flags_weight acc) as (W & L & NB & NO).
    split.
    { exists (layout_flags acc). split; [reflexivity|].
      unfold layout_flags.
      generalize msg_fonts, msg_font_sizes, msg_alignment. intros a b d.
      destruct (2 <? length (fonts acc))%nat,
        (4 <? length (fontSizes acc))%nat,
        (gt (leftVar (leftPositions acc)) 30); cbn [app];
        repeat (apply Forall_cons; [cbn [In]; auto|]); apply Forall_nil. }
    rewrite length_app, sum_weights_app, (sum_weights_const W).
    cbn [length]. change (sum_weights [msg_format_failed]) with 0.
    split; [lia|].
    split.
    { rewrite in_app_iff. intros [H|[H|[]]]; [exact (NB H)|].
      vm_compute in H. discriminate. }
    split.
    { rewrite in_app_iff. intros [H|[H|[]]]; [exact (NO H)|].
      vm_compute in H. discriminate. }
    lia.
  - split; [exists []; split; [reflexivity|constructor]|].
    cbn [length]. split; [lia|].
    split; [intros [H|[]]; vm_compute in H; discriminate|].
    split; [intros [H|[]]; vm_compute in H; discriminate|].
    split; reflexivity || (vm_compute; discriminate).
Qed.

Lemma checkFormattingConsistency_ordered (filePath : jsstring) :
  exists fonts_flag sizes_flag alignment_flag : bool,
    checkFormattingConsistency readFileSync getDocument filePath =
      (if fonts_flag then [msg_fonts] else [])
      ++ (if sizes_flag then [msg_font_sizes] else [])
      ++ (if alignment_flag then [msg_alignment] else [])
      ++ [msg_format_failed].
Proof.
  rewrite checkFormattingConsistency_cases.
  destruct (extract_layout readFileSync getDocument filePath) as [[doc acc]|e].
  - exists (2 <? length (fonts acc))%nat, (4 <? length (fontSizes acc))%nat,
      (gt (leftVar (leftPositions acc)) 30).
    unfold layout_flags.
    destruct (2 <? length (fonts acc))%nat, (4 <? length (fontSizes acc))%nat,
      (gt (leftVar (leftPositions acc)) 30); reflexivity.
  - exists false, false, false. reflexivity.
Qed.

(** X14. The formatting check returns between one and four items: the fonts
    warning, the font-sizes warning and the alignment warning, each at most
    once and in this order, then the cross item.  It never returns the
    bullet-style warning nor the success item, and its items weigh 10 points
    per warning, 30 at most. *)
Theorem checkFormattingConsistency_shape (filePath : jsstring) :
  let out := checkFormattingConsistency readFileSync getDocument filePath in
  (exists fonts_flag sizes_flag alignment_flag : bool,
      out =
        (if fonts_flag then [msg_fonts] else [])
        ++ (if sizes_flag then [msg_font_sizes] else [])
        ++ (if alignment_flag then [msg_alignment] else [])
        ++ [msg_format_failed]) /\
  (exists flags,
      out = flags ++ [msg_format_failed] /\
      Forall (fun r => In r [msg_fonts; msg_font_sizes; msg_alignment]) flags) /\
  (1 <= length out <= 4)%nat /\
  ~ In msg_bullet_styles out /\
  ~ In msg_format_ok out /\
  sum_weights out = 10 * (Z.of_nat (length out) - 1) /\
  sum_weights out <= 30.
Proof.
  split; [exact (checkFormattingConsistency_ordered filePath)|].
  exact (checkFormattingConsistency_items filePath).
Qed.

(** The feedback and the console output of a review whose text was read. *)
Lemma reviewResume_success (filePath : jsstring) (jobDesc : option jsstring)
  (log : list jsstring) (c : Z) (text : jsstring) :
  parsePDF readFileSync pdf filePath = Ok (c :: text) ->
  let results :=
    text_checks compareTwoStrings toLowerCase titleCase (c :: text)
      (default_empty jobDesc)
    ++ checkFormattingConsistency readFileSync getDocument filePath in
  reviewResume readFileSync pdf getDocument compareTwoStrings toLowerCase
    titleCase filePath jobDesc log
  = (Ok (ReviewResult (calculateScore results) results),
     log ++ [utf16 "📄 Analyzing resume: " ++ filePath;
             10 :: utf16 "📋 Resume Review Summary"; rule]
       ++ map bullet_line results
       ++ [rule;
           utf16 "📊 Overall Resume Score: " ++ of_Z (calculateScore results)
             ++ utf16 "/100";
           rule ++ [10]]).
Proof.
  intros P. cbv zeta. unfold reviewResume. rewrite P. cbv zeta.
  rewrite fold_console_log. unfold console_log. cbn [join].
  rewrite <- !app_assoc. reflexivity.
Qed.

Lemma text_checks_tagged (text jobDesc : jsstring) :
  Forall tagged
    (text_checks compareTwoStrings toLowerCase titleCase text jobDesc).
Proof.
  unfold text_checks. cbv zeta. cbn [app].
  apply Forall_app_intro; [|apply checkGrammarHeuristics_tagged].
  apply Forall_app_intro; [|apply checkKeywordMatch_weight].
  apply Forall_app_intro;
    [|apply (@weight_tagged 15); [lia|apply checkFileCompatibility_weight]].
  apply Forall_app_intro; [|apply checkAchievements_tagged].
  apply Forall_app_intro;
    [|apply (@weight_tagged 5); [lia|apply checkHeadings_weight]].
  apply Forall_app_intro;
    [|apply (@weight_tagged 15); [lia|apply checkContactFormatting_weight]].
  apply Forall_app_intro;
    [|apply (@weight_tagged 5); [lia|apply checkProjects_weight]].
  apply (@weight_tagged 7); [lia|apply checkBulletPoints_weight].
Qed.

Lemma checkFormattingConsistency_tagged (filePath : jsstring) :
  Forall tagged (checkFormattingConsistency readFileSync getDocument filePath)
  /\ last (checkFormattingConsistency readFileSync getDocument filePath) []
     = msg_format_failed.
Proof.
  rewrite checkFormattingConsistency_cases.
  destruct (extract_layout readFileSync getDocument filePath) as [[doc acc]|e].
  - split.
    + apply Forall_app. split.
      * apply (@weight_tagged 10); [lia|apply layout_flags_weight].
      * repeat constructor. unfold tagged. discriminate.
    + apply last_last.
  - split; [|reflexivity]. repeat constructor. unfold tagged. discriminate.
Qed.

(** X15. When the text of the file is read and is not empty, the review
    completes, whatever happens in the formatting check: it resolves with the
    feedback of the eight text checks followed by that of the formatting
    check, and with the score of that feedback, between 0 and 100.  Every
    feedback item starts with one of the seven tags and the last item is the
    cross item of the formatting check. *)
Theorem reviewResume_completed (filePath : jsstring)
  (jobDesc : option jsstring) (log : list jsstring) (c : Z) (text : jsstring) :
  parsePDF readFileSync pdf filePath = Ok (c :: text) ->
  exists results,
    fst (reviewResume readFileSync pdf getDocument compareTwoStrings
           toLowerCase titleCase filePath jobDesc log)
    = Ok (ReviewResult (calculateScore results) results) /\
    results =
      text_checks compareTwoStrings toLowerCase titleCase (c :: text)
        (default_empty jobDesc)
      ++ checkFormattingConsistency readFileSync getDocument filePath /\
    0 <= calculateScore results <= 100 /\
    Forall tagged results /\
    last results [] = msg_format_failed.
Proof.
  intros P. eexists. rewrite (reviewResume_success filePath jobDesc log P).
  cbn [fst]. split; [reflexivity|]. split; [reflexivity|].
  destruct (checkFormattingConsistency_tagged filePath) as [T L].
  split; [|split].
  - rewrite calculateScore_sum_weights.
    match goal with |- context [sum_weights ?l] =>
      pose proof (sum_weights_nonneg l) end. lia.
  - apply Forall_app. split; [apply text_checks_tagged|exact T].
  - rewrite <- L. apply last_app_nonempty.
    intros E. rewrite E in L. vm_compute in L. discriminate.
Qed.

(** X16. The console output of a completed review: the line naming the file,
    the title, a rule, one bullet line per feedback item in order, a rule,
    the score line and a closing rule. *)
Theorem reviewResume_console (filePath : jsstring)
  (jobDesc : option jsstring) (log : list jsstring) (c : Z) (text : jsstring) :
  parsePDF readFileSync pdf filePath = Ok (c :: text) ->
  exists score results,
    fst (reviewResume readFileSync pdf getDocument compareTwoStrings
           toLowerCase titleCase filePath jobDesc log)
    = Ok (ReviewResult score results) /\
    snd (reviewResume readFileSync pdf getDocument compareTwoStrings
           toLowerCase titleCase filePath jobDesc log)
    = log ++ [utf16 "📄 Analyzing resume: " ++ filePath;
              10 :: utf16 "📋 Resume Review Summary"; rule]
        ++ map bullet_line results
        ++ [rule;
            utf16 "📊 Overall Resume Score: " ++ of_Z score ++ utf16 "/100";
            rule ++ [10]].
Proof.
  intros P. do 2 eexists.
  rewrite (reviewResume_success filePath jobDesc log P).
  split; reflexivity.
Qed.

(** X17. The score of a completed review, item by item: 7 points per section
    with long paragraphs, 5 for missing projects, 15 for missing contact
    details, 5 per heading to recase, 15 for a text under 200 code units, 7
    per grammar flag and 10 per formatting warning are taken from 100, down
    to 0 at the lowest; achievement and keyword items cost nothing. *)
Theorem reviewResume_score (filePath : jsstring) (jobDesc : option jsstring)
  (log : list jsstring) (c : Z) (text : jsstring) :
  parsePDF readFileSync pdf filePath = Ok (c :: text) ->
  exists score results,
    fst (reviewResume readFileSync pdf getDocument compareTwoStrings
           toLowerCase titleCase filePath jobDesc log)
    = Ok (ReviewResult score results) /\
    score =
      Z.max 0
        (100
         - 7 * Z.of_nat (length (checkBulletPoints (c :: text)))
         - 5 * Z.of_nat (length (checkProjects (c :: text)))
         - 15 * Z.of_nat (length (checkContactFormatting (c :: text)))
         - 5 * Z.of_nat (length (checkHeadings titleCase (c :: text)))
         - 15 * Z.of_nat (length (checkFileCompatibility (c :: text)))
         - 7 * (flag (5 <? length (longSentences (c :: text)))%nat
                + flag (0 <? length (lowercaseStart (c :: text)))%nat)
         - 10 * (Z.of_nat
                   (length
                      (checkFormattingConsistency readFileSync getDocument
                         filePath)) - 1)).
Proof.
  intros P. do 2 eexists.
  rewrite (reviewResume_success filePath jobDesc log P). cbn [fst].
  split; [reflexivity|].
  rewrite calculateScore_sum_weights. unfold text_checks. cbv zeta.
  cbn [app]. rewrite !sum_weights_app.
  rewrite (sum_weights_const (checkBulletPoints_weight (c :: text))).
  rewrite (sum_weights_const (checkProjects_weight (c :: text))).
  rewrite (sum_weights_const (checkContactFormatting_weight (c :: text))).
  rewrite (sum_weights_const (checkHeadings_weight titleCase (c :: text))).
  rewrite (sum_weights_const (checkFileCompatibility_weight (c :: text))).
  rewrite checkAchievements_weight, checkGrammarHeuristics_weight.
  destruct (checkKeywordMatch_weight compareTwoStrings toLowerCase (c :: text)
              (Some (default_empty jobDesc))) as [-> _].
  destruct (checkFormattingConsistency_items filePath) as (_ & _ & _ & _ & -> & _).
  lia.
Qed.

(** X18. A job description never changes the score: with it the review
    returns at most one more item, the green keyword item, and the same
    score as without it; failures are the same too. *)
Theorem jobDesc_keeps_score (filePath : jsstring) (jobDesc : option jsstring)
  (log log' : list jsstring) :
  match
    fst (reviewResume readFileSync pdf getDocument compareTwoStrings
           toLowerCase titleCase filePath jobDesc log),
    fst (reviewResume readFileSync pdf getDocument compareTwoStrings
           toLowerCase titleCase filePath None log')
  with
  | Ok (ReviewResult score results), Ok (ReviewResult score' results') =>
    score = score' /\
    (length results' <= length results <= S (length results'))%nat
  | Ok Undefined, Ok Undefined => True
  | Throw e, Throw e' => e = e'
  | _, _ => False
  end.
Proof.
  destruct (parsePDF readFileSync pdf filePath) as [[|c text]|e] eqn:P.
  - unfold reviewResume. rewrite P. exact I.
  - rewrite (reviewResume_success filePath jobDesc log P).
    rewrite (reviewResume_success filePath None log' P). cbn [fst].
    rewrite !calculateScore_sum_weights. unfold text_checks. cbv zeta.
    cbn [app]. rewrite !sum_weights_app, !length_app.
    destruct (checkKeywordMatch_weight compareTwoStrings toLowerCase
                (c :: text) (Some (default_empty jobDesc))) as (-> & _ & L).
    cbn [default_empty checkKeywordMatch length sum_weights fold_right].
    split; [reflexivity|]. lia.
  - unfold reviewResume. rewrite P. reflexivity.
Qed.

(** X19. A review of a text shorter than 200 code units always carries the
    image-based warning and scores 85 at most. *)
Theorem reviewResume_short_text (filePath : jsstring)
  (jobDesc : option jsstring) (log : list jsstring) (c : Z) (text : jsstring) :
  parsePDF readFileSync pdf filePath = Ok (c :: text) ->
  (length (c :: text) < 200)%nat ->
  exists score results,
    fst (reviewResume readFileSync pdf getDocument compareTwoStrings
           toLowerCase titleCase filePath jobDesc log)
    = Ok (ReviewResult score results) /\
    In msg_image_based results /\ score <= 85.
Proof.
  intros P L. do 2 eexists.
  rewrite (reviewResume_success filePath jobDesc log P). cbn [fst].
  split; [reflexivity|].
  assert (I : In msg_image_based
                (text_checks compareTwoStrings toLowerCase titleCase
                   (c :: text) (default_empty jobDesc)
                 ++ checkFormattingConsistency readFileSync getDocument
                      filePath)).
  { apply in_or_app. left. unfold text_checks. cbv zeta. cbn [app].
    rewrite !in_app_iff. left. left. right. unfold checkFileCompatibility.
    apply Nat.ltb_lt in L. rewrite L. now left. }
  split; [exact I|]. apply In_score_le in I.
  change (item_weight msg_image_based) with 15 in I. lia.
Qed.

End ReviewProperties.

(** ** Witnesses for the review *)

Lemma extract_layout_pages_witness :
  checkFormattingConsistency fs_ok (open_doc clean_doc) (utf16 "cv.pdf")
  = layout_flags
      (fold_left scan_item
         (flat_map
            (fun _ : nat =>
               [sample_item (utf16 "g_d0_f1") 12 72;
                sample_item (utf16 "g_d0_f1") 12 72])
            (seq 1 (numPages clean_doc)))
         empty_layout)
    ++ [msg_format_failed].
Proof.
  refine (proj2 (@extract_layout_pages fs_ok (open_doc clean_doc)
                   (utf16 "cv.pdf") (utf16 "%PDF-1.4") clean_doc
                   (fun _ =>
                      [sample_item (utf16 "g_d0_f1") 12 72;
                       sample_item (utf16 "g_d0_f1") 12 72])
                   eq_refl eq_refl _)).
  intros i [<-|[]]. eexists. split; reflexivity.
Defined.

Lemma sample_parse :
  parsePDF fs_ok (pdf_with_text (Some (utf16 "Built a compiler.")))
    (utf16 "cv.pdf")
  = Ok (66 :: utf16 "uilt a compiler.").
Proof. vm_compute. reflexivity. Defined.

Lemma reviewResume_completed_witness :
  exists results,
    fst (reviewResume fs_ok (pdf_with_text (Some (utf16 "Built a compiler.")))
           (open_doc clean_doc) third_similar id_string id_string
           (utf16 "cv.pdf") None [])
    = Ok (ReviewResult (calculateScore results) results) /\
    last results [] = msg_format_failed.
Proof.
  destruct (@reviewResume_completed fs_ok
              (pdf_with_text (Some (utf16 "Built a compiler.")))
              (open_doc clean_doc) third_similar id_string id_string
              (utf16 "cv.pdf") None [] _ _ sample_parse)
    as (results & E & _ & _ & _ & L).
  exists results. split; assumption.
Defined.

Lemma reviewResume_console_witness :
  exists score results,
    snd (reviewResume fs_ok (pdf_with_text (Some (utf16 "Built a compiler.")))
           (open_doc clean_doc) third_similar id_string id_string
           (utf16 "cv.pdf") None [])
    = [] ++ [utf16 "📄 Analyzing resume: " ++ utf16 "cv.pdf";
             10 :: utf16 "📋 Resume Review Summary"; rule]
        ++ map bullet_line results
        ++ [rule;
            utf16 "📊 Overall Resume Score: " ++ of_Z score ++ utf16 "/100";
            rule ++ [10]].
Proof.
  destruct (@reviewResume_console fs_ok
              (pdf_with_text (Some (utf16 "Built a compiler.")))
              (open_doc clean_doc) third_similar id_string id_string
              (utf16 "cv.pdf") None [] _ _ sample_parse)
    as (score & results & _ & E).
  exists score, results. exact E.
Defined.

Lemma reviewResume_score_witness :
  exists score results,
    fst (reviewResume fs_ok (pdf_with_text (Some (utf16 "Built a compiler.")))
           (open_doc clean_doc) third_similar id_string id_string
           (utf16 "cv.pdf") None [])
    = Ok (ReviewResult score results) /\
    score = 65.
Proof.
  destruct (@reviewResume_score fs_ok
              (pdf_with_text (Some (utf16 "Built a compiler.")))
              (open_doc clean_doc) third_similar id_string id_string
              (utf16 "cv.pdf") None [] _ _ sample_parse)
    as (score & results & E & S).
  exists score, results. split; [exact E|]. rewrite S. vm_compute. reflexivity.
Defined.

Lemma reviewResume_short_text_witness :
  exists score results,
    fst (reviewResume fs_ok (pdf_with_text (Some (utf16 "Built a compiler.")))
           (open_doc clean_doc) third_similar id_string id_string
           (utf16 "cv.pdf") None [])
    = Ok (ReviewResult score results) /\
    In msg_image_based results /\ score <= 85.
Proof.
  apply (@reviewResume_short_text fs_ok
           (pdf_with_text (Some (utf16 "Built a compiler.")))
           (open_doc clean_doc) third_similar id_string id_string
           (utf16 "cv.pdf") None [] _ _ sample_parse).
  vm_compute. lia.
Defined.

(** ** Server start-up *)

Section ServerProperties.

Variable existsSync : jsstring -> bool.
Variable readFileSync : jsstring -> result (list Z).
Variable env : jsstring -> option jsstring.
Variable createServer : SslOptions -> result unit.




End ServerProperties.

Example start_with_ssl :
  fst (fst (start all_exist fs_pem env_ssl accepts_all))
  = Ok (Https {| key := Some (utf16 "-----BEGIN");
                 cert := Some (utf16 "-----BEGIN"); ca := None |} 7005).
Proof. vm_compute. reflexivity. Qed.

Example start_rejected_key :
  start all_exist fs_pem env_ssl rejects_all
  = (Throw (IOError (utf16 "error:0480006C:PEM routines::no start line")),
     [], []).
Proof. vm_compute. reflexivity. Qed.

Example start_unreadable_key :
  start all_exist fs_missing env_ssl accepts_all
  = (Ok (Http 7005), http_lines,
     [warn_unreadable (utf16 "/etc/ssl/key.pem");
      warn_unreadable (utf16 "/etc/ssl/cert.pem")]).
Proof. vm_compute. reflexivity. Qed.
